(** * Audio transcriber: shallow embedding of the server-side pipeline

    The server code of the repository is embedded function by function:
    - [Diarization.identifySpeakers]   (server/diarization.ts)
    - [Summary.generateSummary]        (server/summary.ts)
    - [Transcription.transcribeAudio]  (server/transcription.ts)
    - [Routes.compressAudioFile], [Routes.transcribeRoute] and
      [Routes.transcribeRouteSimple]   (the two variants of server/routes.ts)

    JavaScript values are an inductive type, exceptions are an explicit
    completion type with [try]/[catch]/[finally] combinators, the file system
    is a finite map from paths to sizes, and every call that leaves the
    process (the language model, the speech service, the encoder) is an
    input of the model. *)

From Stdlib Require Import Ascii String NArith ZArith List Sorting.Sorted Floats.SpecFloat.
From stdpp Require Import base option list strings pretty gmap.

Local Open Scope string_scope.

(** ** Completions: a JavaScript evaluation returns or throws *)

(** The [response] object some thrown errors carry (HTTP client errors). *)
Record ErrResponse := mkErrResponse {
  resp_status : option N;              (* error.response.status *)
  resp_data : option (option string)   (* error.response.data, and inside it error?.message *)
}.

(** An [Error] object: its [message] and its optional [response]. *)
Record JsError := mkJsError {
  message : string;
  response : option ErrResponse
}.

(** [new Error(msg)] *)
Definition newError (msg : string) : JsError :=
  {| message := msg; response := None |}.

Inductive Completion (A : Type) : Type :=
| Normal (a : A)
| Throw (e : JsError).
Arguments Normal {A} a.
Arguments Throw {A} e.

Definition cbind {A B} (c : Completion A) (k : A -> Completion B) : Completion B :=
  match c with
  | Normal a => k a
  | Throw e => Throw e
  end.

(** [try { body } catch (e) { handler e }] *)
Definition try_catch {A} (body : Completion A) (handler : JsError -> Completion A)
  : Completion A :=
  match body with
  | Normal a => Normal a
  | Throw e => handler e
  end.

Declare Scope completion_scope.
Delimit Scope completion_scope with completion.
Notation "x <- c ;; k" := (cbind c (fun x => k))
  (at level 100, c at next level, right associativity) : completion_scope.

Definition returned {A} (c : Completion A) : bool :=
  match c with Normal _ => true | Throw _ => false end.

(** ** Strings

    A JavaScript string is a sequence of UTF-16 code units; a character of a
    Rocq [string] stands for one code unit below 256. *)
Module JsString.

(** [\s] of a regular expression and the characters [trim] removes,
    among the code units below 256: TAB, LF, VT, FF, CR, space, NBSP. *)
Definition isWhiteSpace (c : ascii) : bool :=
  let n := nat_of_ascii c in
  (Nat.leb 9 n && Nat.leb n 13) || Nat.eqb n 32 || Nat.eqb n 160.

(** [[A-Z]] *)
Definition isUpperAZ (c : ascii) : bool :=
  let n := nat_of_ascii c in Nat.leb 65 n && Nat.leb n 90.

(** [\.|\?|\!] and [[.!?]] *)
Definition isTerminator (c : ascii) : bool :=
  let n := nat_of_ascii c in Nat.eqb n 46 || Nat.eqb n 63 || Nat.eqb n 33.

Fixpoint startsWith (pat s : string) : bool :=
  match pat, s with
  | EmptyString, _ => true
  | String _ _, EmptyString => false
  | String a pat', String b s' => Ascii.eqb a b && startsWith pat' s'
  end.

(** [s.includes(pat)] *)
Fixpoint includes (s pat : string) : bool :=
  startsWith pat s ||
  match s with
  | EmptyString => false
  | String _ s' => includes s' pat
  end.

Definition rev (s : string) : string :=
  string_of_list_ascii (List.rev (list_ascii_of_string s)).

(** [s.endsWith(suf)] *)
Definition endsWith (s suf : string) : bool := startsWith (rev suf) (rev s).

Fixpoint trimStart (s : string) : string :=
  match s with
  | EmptyString => EmptyString
  | String c s' => if isWhiteSpace c then trimStart s' else s
  end.

(** [s.trim()] *)
Definition trim (s : string) : string := rev (trimStart (rev (trimStart s))).

(** [s.substring(a)] *)
Fixpoint dropChars (n : nat) (s : string) : string :=
  match n, s with
  | O, _ => s
  | S _, EmptyString => EmptyString
  | S n', String _ s' => dropChars n' s'
  end.

(** [s.substring(a, b)]: both ends are clamped to the length and swapped
    when out of order. *)
Definition substring2 (s : string) (a b : nat) : string :=
  let len := String.length s in
  let a' := Nat.min a len in
  let b' := Nat.min b len in
  String.substring (Nat.min a' b') (Nat.max a' b' - Nat.min a' b') s.

Fixpoint indexOfAux (pat s : string) (i : nat) : option nat :=
  if startsWith pat s then Some i
  else match s with
       | EmptyString => None
       | String _ s' => indexOfAux pat s' (S i)
       end.

(** [s.indexOf(pat, from)]; [None] stands for [-1]. *)
Definition indexOf (s pat : string) (from : nat) : option nat :=
  let from' := Nat.min from (String.length s) in
  indexOfAux pat (dropChars from' s) from'.

(** [c.toLowerCase()] on one code unit below 256: the ASCII capitals and
    the Latin-1 capitals U+00C0..U+00DE except the sign U+00D7. *)
Definition lowerChar (c : ascii) : ascii :=
  let n := nat_of_ascii c in
  if (Nat.leb 65 n && Nat.leb n 90) ||
     (Nat.leb 192 n && Nat.leb n 222 && negb (Nat.eqb n 215))
  then ascii_of_nat (n + 32) else c.

Fixpoint toLowerCase (s : string) : string :=
  match s with
  | EmptyString => EmptyString
  | String c s' => String (lowerChar c) (toLowerCase s')
  end.

(** [l.join(sep)] *)
Definition join (sep : string) (l : list string) : string := String.concat sep l.

(** The pieces of [s.split(/(?<=\.|\?|\!)\s+/g)].

    A separator is a maximal run of white space whose preceding character
    is one of [.], [?], [!].  [skipping] is true inside such a run,
    [prevTerm] tells whether the previous character was a terminator and
    [cur] is the piece read so far.  A separator at the very end leaves an
    empty last piece, as [split] does. *)
Fixpoint splitGo (skipping prevTerm : bool) (cur s : string) : list string :=
  match s with
  | EmptyString => [cur]
  | String c s' =>
      if skipping then
        if isWhiteSpace c then splitGo true false EmptyString s'
        else splitGo false (isTerminator c) (String c EmptyString) s'
      else if prevTerm && isWhiteSpace c then
        cur :: splitGo true false EmptyString s'
      else splitGo false (isTerminator c) (cur ++ String c EmptyString) s'
  end.

Definition splitAfterTerminators (s : string) : list string :=
  splitGo false false EmptyString s.

(** [(s) => s.trim().length > 0] *)
Definition nonBlank (s : string) : bool :=
  Nat.ltb 0 (String.length (trim s)).

(** [s.split(/(?<=\.|\?|\!)\s+/g).filter(s => s.trim().length > 0)] *)
Definition sentences (s : string) : list string :=
  List.filter nonBlank (splitAfterTerminators s).

(** First character after the leading white space is in [[A-Z]]. *)
Definition upperAfterSpace (s : string) : bool :=
  match trimStart s with
  | EmptyString => false
  | String c _ => isUpperAZ c
  end.

(** The [match.index] of every match of [/(?<=[.!?])\s+(?=[A-Z])/g] found
    by repeated [regex.exec]: a position whose previous character is a
    terminator, that starts a run of white space, the run being followed
    by a capital.  ([\s+] is greedy and a shorter run is followed by
    white space, so only the maximal run can be followed by [[A-Z]].) *)
Fixpoint boundariesGo (prevTerm : bool) (i : nat) (s : string) : list nat :=
  match s with
  | EmptyString => []
  | String c s' =>
      let here := prevTerm && isWhiteSpace c && upperAfterSpace s' in
      (if here then [i] else []) ++ boundariesGo (isTerminator c) (S i) s'
  end.

Definition sentenceBoundaries (s : string) : list nat := boundariesGo false 0 s.

End JsString.


(** ** JavaScript values *)

(** The values [JSON.parse] produces, and [undefined] for absent properties.
    The entries of an object are kept in the order [Object.entries]
    enumerates them, each key once. *)
#[warnings="-register-all"]
Inductive JsValue : Type :=
| JUndefined
| JNull
| JBool (b : bool)
| JNumber (x : spec_float)
| JString (s : string)
| JArray (elems : list JsValue)
| JObject (props : list (string * JsValue)).

Module Js.

(** [Boolean(v)] *)
Definition truthy (v : JsValue) : bool :=
  match v with
  | JUndefined | JNull => false
  | JBool b => b
  | JNumber (S754_zero _) | JNumber S754_nan => false
  | JNumber _ => true
  | JString s => negb (String.eqb s EmptyString)
  | JArray _ | JObject _ => true
  end.

(** [a || b] *)
Definition orElse (a b : JsValue) : JsValue := if truthy a then a else b.

(** [typeof v === 'string'] *)
Definition isString (v : JsValue) : bool :=
  match v with JString _ => true | _ => false end.

(** Own property of an object; [undefined] when absent. *)
Fixpoint lookupProp (props : list (string * JsValue)) (k : string) : JsValue :=
  match props with
  | [] => JUndefined
  | (k', v) :: rest => if String.eqb k' k then v else lookupProp rest k
  end.

(** [k in obj] for an object without inherited property [k]. *)
Fixpoint hasProp (props : list (string * JsValue)) (k : string) : bool :=
  match props with
  | [] => false
  | (k', _) :: rest => String.eqb k' k || hasProp rest k
  end.

Definition typeError (msg : string) : JsError := newError msg.

(** [v.k] for the property names the server code reads from parsed
    replies ([text], [segments], [speakers], [keyPoints], [topics],
    [actionItems]): none of them is defined on a built-in prototype, so
    the read gives the own property of an object, [undefined] on any
    other value, and throws a TypeError on [null] and [undefined]. *)
Definition getProp (v : JsValue) (k : string) : Completion JsValue :=
  match v with
  | JUndefined =>
      Throw (typeError ("Cannot read properties of undefined (reading '" ++ k ++ "')"))
  | JNull =>
      Throw (typeError ("Cannot read properties of null (reading '" ++ k ++ "')"))
  | JObject props => Normal (lookupProp props k)
  | _ => Normal JUndefined
  end.

End Js.

(** ** The chat completion call (shared by the diarizer and the summarizer) *)
Module Chat.
Import Js.

(** What the awaited [openai.chat.completions.create] call gives. *)
Inductive Upstream : Type :=
| Rejected (e : JsError)          (* the call throws: transport or service error *)
| NoChoice                        (* a response without [choices[0].message] *)
| Reply (content : option string) (* [choices[0].message.content], [None] for null *).

(** [response.choices[0].message.content] *)
Definition readContent (up : Upstream) : Completion (option string) :=
  match up with
  | Rejected e => Throw e
  | NoChoice => Throw (typeError "Cannot read properties of undefined (reading 'message')")
  | Reply c => Normal c
  end.

End Chat.

(** ** Speaker diarization (server/diarization.ts) *)
Module Diarization.
Import JsString Js Chat.

(** [{ speaker: ..., text: ... }] *)
Definition segmentOf (speaker text : JsValue) : JsValue :=
  JObject [("speaker", speaker); ("text", text)].

Definition segment (speaker text : string) : JsValue :=
  segmentOf (JString speaker) (JString text).

(** [result[0].text.split(...)]: only a string has a [split] method. *)
Definition splitText (text : JsValue) : Completion (list string) :=
  match text with
  | JString t => Normal (sentences t)
  | JUndefined => Throw (typeError "Cannot read properties of undefined (reading 'split')")
  | JNull => Throw (typeError "Cannot read properties of null (reading 'split')")
  | _ => Throw (typeError "result[0].text.split is not a function")
  end.

(** [Math.ceil(n / 2)] *)
Definition halfUp (n : nat) : nat := Nat.div (n + 1) 2.

(** Lines 82-96: the reply is an array. *)
Definition recoverArray (elems : list JsValue) : Completion (list JsValue) :=
  match elems with
  | [only] =>
      (text <- getProp only "text" ;;
       segments <- splitText text ;;
       if Nat.ltb 1 (List.length segments) then
         let firstHalf := join " " (firstn (halfUp (List.length segments)) segments) in
         let secondHalf := join " " (skipn (halfUp (List.length segments)) segments) in
         Normal [segment "Speaker 1" firstHalf; segment "Speaker 2" secondHalf]
       else Normal elems)%completion
  | _ => Normal elems
  end.

(** Lines 106-119: one entry of [Object.entries(result)] turned into a
    segment, or dropped ([null], removed by [filter(Boolean)]). *)
Definition entrySegment (props : list (string * JsValue)) (entry : string * JsValue)
  : option (JsValue * JsValue) :=
  let '(key, val) := entry in
  if String.eqb key "speaker" && hasProp props "text" then
    Some (val, lookupProp props "text")
  else if includes (toLowerCase key) "speaker" && isString val then
    Some (JString key, val)
  else None.

(** Lines 149-168: three segments cut at the sentence boundaries one third
    and two thirds of the way. *)
Definition splitInThree (speaker : JsValue) (text : string) (sentenceEndings : list nat)
  : list JsValue :=
  let firstSpeaker := orElse speaker (JString "Speaker 1") in
  let secondSpeaker :=
    match firstSpeaker with
    | JString "Interviewer" => JString "Interviewee"
    | _ => JString "Speaker 2"
    end in
  let n := List.length sentenceEndings in
  let thirdIndex := Nat.div n 3 in
  let twoThirdsIndex := Nat.div (n * 2) 3 in
  let firstBreakPoint :=
    if Nat.ltb thirdIndex n then nth thirdIndex sentenceEndings 0 else 0 in
  let secondBreakPoint :=
    if Nat.ltb twoThirdsIndex n then nth twoThirdsIndex sentenceEndings 0
    else if Nat.ltb 0 n then nth (n - 1) sentenceEndings 0 else 0 in
  [ segmentOf firstSpeaker (JString (trim (substring2 text 0 (firstBreakPoint + 1))));
    segmentOf secondSpeaker
      (JString (trim (substring2 text (firstBreakPoint + 1) (secondBreakPoint + 1))));
    segmentOf firstSpeaker (JString (trim (dropChars (secondBreakPoint + 1) text))) ].

(** Lines 121-177, for a non-empty list of extracted segments.  A lone
    segment whose text is a string longer than 200 is cut in three when it
    has a sentence boundary.  A text that is not a string either fails the
    guard of line 126 or makes [text.substring] throw inside the [try] of
    line 132, whose handler only logs: both ways line 176 returns the
    segments as they are. *)
Definition recoverEntries (segments : list (JsValue * JsValue)) : list JsValue :=
  let asIs := List.map (fun st => segmentOf (fst st) (snd st)) segments in
  match segments with
  | [(speaker, JString text)] =>
      if Nat.ltb 200 (String.length text) then
        let sentenceEndings := sentenceBoundaries text in
        if Nat.ltb 0 (List.length sentenceEndings)
        then splitInThree speaker text sentenceEndings
        else asIs
      else asIs
  | _ => asIs
  end.

(** Lines 180-192: two generic speakers, cut near the middle. *)
Definition splitAtMidpoint (transcriptText : string) : list JsValue :=
  let midPoint := Nat.div (String.length transcriptText) 2 in
  let splitIndex :=
    match indexOf transcriptText ". " midPoint with
    | None => midPoint
    | Some i => if Nat.ltb (midPoint + 200) i then midPoint else i + 2
    end in
  [ segment "Speaker 1" (trim (substring2 transcriptText 0 splitIndex));
    segment "Speaker 2" (trim (dropChars splitIndex transcriptText)) ].

(** Lines 97-193: the reply is not an array. *)
Definition recoverOther (transcriptText : string) (result : JsValue)
  : Completion (list JsValue) :=
  (segs <- getProp result "segments" ;;
   match segs with
   | JArray l => Normal l
   | _ =>
       speakers <- getProp result "speakers" ;;
       match speakers with
       | JArray l => Normal l
       | _ =>
           match result with
           | JObject props =>
               match omap (entrySegment props) props with
               | [] => Normal (splitAtMidpoint transcriptText)
               | segments => Normal (recoverEntries segments)
               end
           | _ => Normal (splitAtMidpoint transcriptText)
           end
       end
   end)%completion.

(** Lines 82-193 *)
Definition recover (transcriptText : string) (result : JsValue)
  : Completion (list JsValue) :=
  match result with
  | JArray elems => recoverArray elems
  | _ => recoverOther transcriptText result
  end.

(** Lines 214-225: does a turn-taking signal fire between two sentences? *)
Definition speakerChange (prevSentence currSentence : string) : bool :=
  existsb (fun indicator : bool => indicator)
    [ endsWith prevSentence "?";
      includes prevSentence "thank you";
      includes prevSentence "could you";
      includes prevSentence "what do you think";
      includes currSentence "yeah";
      includes currSentence "okay";
      includes currSentence "so,";
      includes currSentence "well," ].

Definition otherSpeaker (currentSpeaker : string) : string :=
  if String.eqb currentSpeaker "Speaker 1" then "Speaker 2" else "Speaker 1".

(** Lines 208-236: the loop over [sentences[1..]].  [prevSentence] is
    [sentences[i-1]], [rest] starts at [sentences[i]]. *)
Fixpoint walk (segments : list JsValue) (currentSpeaker currentText prevSentence : string)
    (rest : list string) : list JsValue :=
  match rest with
  | [] => segments ++ [segment currentSpeaker currentText]
  | currSentence :: rest' =>
      if speakerChange prevSentence currSentence then
        walk (segments ++ [segment currentSpeaker currentText])
             (otherSpeaker currentSpeaker) currSentence currSentence rest'
      else
        walk segments currentSpeaker (currentText ++ " " ++ currSentence)
             currSentence rest'
  end.

(** Lines 194-237: the handler of the inner [catch]. *)
Definition sentenceFallback (transcriptText : string) : list JsValue :=
  let sentences := sentences transcriptText in
  if Nat.leb (List.length sentences) 2 then [segment "Speaker 1" transcriptText]
  else
    match sentences with
    | first :: rest => walk [] "Speaker 1" first first rest
    | [] => [segment "Speaker 1" transcriptText]
    end.

(** The parsed replies that carry an empty array where segments are read. *)
Definition emptyArrayReply (result : JsValue) : Prop :=
  result = JArray []
  \/ exists props,
       result = JObject props
       /\ (lookupProp props "segments" = JArray []
           \/ lookupProp props "speakers" = JArray []).

(** *** The fallback walk as the specification words it

    These definitions follow the prose, not the loop: the sentences are
    cut into runs, a new run starting exactly at a sentence where a
    turn-taking signal fires, and the runs are labelled with alternating
    speakers starting at "Speaker 1". *)
Module TurnTaking.

Definition prevPhrases : list string :=
  ["thank you"; "could you"; "what do you think"].

Definition currPhrases : list string := ["yeah"; "okay"; "so,"; "well,"].

(** The previous sentence ends with a question mark or contains a key
    phrase, or the current sentence contains one of its markers. *)
Definition signal (prev curr : string) : bool :=
  endsWith prev "?"
  || existsb (includes prev) prevPhrases
  || existsb (includes curr) currPhrases.

(** The sentences after [prev]: those that continue the run [prev] is
    in, and the later runs. *)
Fixpoint cut (prev : string) (rest : list string)
  : list string * list (list string) :=
  match rest with
  | [] => ([], [])
  | s :: rest' =>
      let '(run, later) := cut s rest' in
      if signal prev s then ([], (s :: run) :: later)
      else (s :: run, later)
  end.

Definition runs (sentences : list string) : list (list string) :=
  match sentences with
  | [] => []
  | first :: rest => let '(run, later) := cut first rest in (first :: run) :: later
  end.

Definition speakerName (first : bool) : string :=
  if first then "Speaker 1" else "Speaker 2".

(** Speakers alternate from run to run. *)
Fixpoint label (first : bool) (rs : list (list string)) : list JsValue :=
  match rs with
  | [] => []
  | r :: rs' => segment (speakerName first) (join " " r) :: label (negb first) rs'
  end.

Definition segments (sentences : list string) : list JsValue :=
  label true (runs sentences).

End TurnTaking.

Section WithParser.
(** [JSON.parse] of the runtime; it throws a SyntaxError on text that is
    not JSON. *)
Variable JSON_parse : string -> Completion JsValue.

Definition identifySpeakers (transcriptText : string) (up : Upstream)
  : Completion (list JsValue) :=
  try_catch
    (content <- readContent up ;;
     match content with
     | None | Some EmptyString =>
         Normal [segment "Unknown" transcriptText]
     | Some content =>
         try_catch
           (result <- JSON_parse content ;; recover transcriptText result)
           (fun parseError => Normal (sentenceFallback transcriptText))
     end)%completion
    (fun error => Normal [segment "Unknown" transcriptText]).

(** The ways diarization fails as a whole, each with the label of the
    single segment it leaves: a reply that is not JSON over a transcript
    of at most two sentences, and a call that raises. *)
Inductive TotalFailure (transcriptText : string) : Upstream -> string -> Prop :=
| tf_unparsable (content : string) (e : JsError) :
    content <> EmptyString ->
    JSON_parse content = Throw e ->
    List.length (sentences transcriptText) <= 2 ->
    TotalFailure transcriptText (Reply (Some content)) "Speaker 1"
| tf_rejected (e : JsError) :
    TotalFailure transcriptText (Rejected e) "Unknown"
| tf_no_choice :
    TotalFailure transcriptText NoChoice "Unknown".

End WithParser.

End Diarization.

(** ** A reader for JSON text

    [JSON.parse] belongs to the runtime and is an input of the model.  This
    reader instantiates it on concrete replies.  It covers the part of the
    JSON grammar made of [null], [true], [false], integer literals, strings
    with the single-character escapes, arrays and objects, with white space
    between tokens; on text outside that part (fractions, exponents,
    [\u] escapes, duplicate keys, keys that start with a digit, which the
    engine would reorder) it reports a syntax error. *)
Module JsonText.
Import JsString.

Definition isJsonSpace (c : ascii) : bool :=
  let n := nat_of_ascii c in
  Nat.eqb n 32 || Nat.eqb n 9 || Nat.eqb n 10 || Nat.eqb n 13.

Fixpoint skipSpace (s : string) : string :=
  match s with
  | String c s' => if isJsonSpace c then skipSpace s' else s
  | EmptyString => EmptyString
  end.

Definition isDigit (c : ascii) : bool :=
  let n := nat_of_ascii c in Nat.leb 48 n && Nat.leb n 57.

(** The double quote character. *)
Definition dquote : ascii := ascii_of_nat 34.

Definition unescape (c : ascii) : option ascii :=
  match c with
  | "034"%char => Some dquote
  | "\"%char => Some "\"%char
  | "/"%char => Some "/"%char
  | "b"%char => Some (ascii_of_nat 8)
  | "f"%char => Some (ascii_of_nat 12)
  | "n"%char => Some (ascii_of_nat 10)
  | "r"%char => Some (ascii_of_nat 13)
  | "t"%char => Some (ascii_of_nat 9)
  | _ => None
  end.

(** The characters of a string literal after its opening quote. *)
Fixpoint readString (s acc : string) : option (string * string) :=
  match s with
  | EmptyString => None
  | String "034"%char s' => Some (acc, s')
  | String "\"%char (String c s') =>
      match unescape c with
      | Some c' => readString s' (acc ++ String c' EmptyString)
      | None => None
      end
  | String c s' =>
      if Nat.ltb (nat_of_ascii c) 32 then None
      else readString s' (acc ++ String c EmptyString)
  end.

Fixpoint readDigits (s : string) (acc : N) : N * string :=
  match s with
  | String c s' =>
      if isDigit c
      then readDigits s' (acc * 10 + N.of_nat (nat_of_ascii c - 48))
      else (acc, s)
  | EmptyString => (acc, s)
  end.

(** The double nearest to an integer. *)
Definition numberOfInteger (negative : bool) (n : N) : spec_float :=
  match n with
  | N0 => S754_zero negative
  | _ => binary_normalize 53 1024 (if negative then Z.opp (Z.of_N n) else Z.of_N n) 0 false
  end.

(** An optional minus sign, then [0] or digits that do not start with [0];
    no fraction and no exponent may follow. *)
Definition readInteger (s : string) : option (JsValue * string) :=
  let '(negative, body) :=
    match s with
    | String "-"%char s' => (true, s')
    | _ => (false, s)
    end in
  match body with
  | String c rest =>
      if isDigit c then
        let '(n, rest') :=
          if Ascii.eqb c "0" then (0%N, rest) else readDigits body 0%N in
        match rest' with
        | String d _ =>
            if isDigit d || Ascii.eqb d "." || Ascii.eqb d "e" || Ascii.eqb d "E"
            then None
            else Some (JNumber (numberOfInteger negative n), rest')
        | EmptyString => Some (JNumber (numberOfInteger negative n), rest')
        end
      else None
  | EmptyString => None
  end.

Section Composite.
Variable readValue : string -> option (JsValue * string).

(** The elements of an array after the first [[], the array not empty. *)
Fixpoint readElements (fuel : nat) (s : string) : option (list JsValue * string) :=
  match fuel with
  | O => None
  | S fuel' =>
      match readValue s with
      | None => None
      | Some (v, rest) =>
          match skipSpace rest with
          | String ","%char rest' =>
              match readElements fuel' rest' with
              | Some (vs, rest'') => Some (v :: vs, rest'')
              | None => None
              end
          | String "]"%char rest' => Some ([v], rest')
          | _ => None
          end
      end
  end.

(** The members of an object after the first [{], the object not empty. *)
Fixpoint readMembers (fuel : nat) (s : string)
  : option (list (string * JsValue) * string) :=
  match fuel with
  | O => None
  | S fuel' =>
      match skipSpace s with
      | String "034"%char s1 =>
          match readString s1 EmptyString with
          | None => None
          | Some (key, s2) =>
              match skipSpace s2 with
              | String ":"%char s3 =>
                  match readValue s3 with
                  | None => None
                  | Some (v, rest) =>
                      match skipSpace rest with
                      | String ","%char rest' =>
                          match readMembers fuel' rest' with
                          | Some (ms, rest'') => Some ((key, v) :: ms, rest'')
                          | None => None
                          end
                      | String "}"%char rest' => Some ([(key, v)], rest')
                      | _ => None
                      end
                  end
              | _ => None
              end
          end
      | _ => None
      end
  end.
End Composite.

Definition digitFirst (key : string) : bool :=
  match key with
  | String c _ => isDigit c
  | EmptyString => false
  end.

Fixpoint distinctKeys (keys : list string) : bool :=
  match keys with
  | [] => true
  | k :: rest => negb (existsb (String.eqb k) rest) && distinctKeys rest
  end.

Definition plainKeys (members : list (string * JsValue)) : bool :=
  distinctKeys (List.map fst members)
  && negb (existsb digitFirst (List.map fst members)).

Fixpoint readValue (fuel : nat) (s : string) : option (JsValue * string) :=
  match fuel with
  | O => None
  | S fuel' =>
      let s := skipSpace s in
      if startsWith "null" s then Some (JNull, dropChars 4 s)
      else if startsWith "true" s then Some (JBool true, dropChars 4 s)
      else if startsWith "false" s then Some (JBool false, dropChars 5 s)
      else
        match s with
        | String "034"%char s' =>
            match readString s' EmptyString with
            | Some (str, rest) => Some (JString str, rest)
            | None => None
            end
        | String "["%char s' =>
            match skipSpace s' with
            | String "]"%char rest => Some (JArray [], rest)
            | _ =>
                match readElements (readValue fuel') fuel' s' with
                | Some (vs, rest) => Some (JArray vs, rest)
                | None => None
                end
            end
        | String "{"%char s' =>
            match skipSpace s' with
            | String "}"%char rest => Some (JObject [], rest)
            | _ =>
                match readMembers (readValue fuel') fuel' s' with
                | Some (ms, rest) =>
                    if plainKeys ms then Some (JObject ms, rest) else None
                | None => None
                end
            end
        | _ => readInteger s
        end
  end.

Definition syntaxError : JsError := newError "Unexpected token in JSON".

Definition parse (text : string) : Completion JsValue :=
  match readValue (S (String.length text)) text with
  | Some (v, rest) =>
      match skipSpace rest with
      | EmptyString => Normal v
      | _ => Throw syntaxError
      end
  | None => Throw syntaxError
  end.

End JsonText.

(** ** Summaries (server/summary.ts) *)
Module Summary.
Import Js Chat.

(** The object [generateSummary] returns. *)
Record Result := mkResult {
  keyPoints : JsValue;
  topics : JsValue;
  actionItems : JsValue
}.

Section WithParser.
Variable JSON_parse : string -> Completion JsValue.

(** [content ? JSON.parse(content) : {}] *)
Definition summaryContentOf (content : option string) : Completion JsValue :=
  match content with
  | None | Some EmptyString => Normal (JObject [])
  | Some content => JSON_parse content
  end.

Definition generateSummary (up : Upstream) : Completion Result :=
  try_catch
    (content <- readContent up ;;
     summaryContent <- summaryContentOf content ;;
     kp <- getProp summaryContent "keyPoints" ;;
     tp <- getProp summaryContent "topics" ;;
     ai <- getProp summaryContent "actionItems" ;;
     Normal {| keyPoints := orElse kp (JArray []);
               topics := orElse tp (JArray []);
               actionItems := orElse ai (JArray []) |})%completion
    (fun error =>
       Throw (newError (if String.eqb (message error) EmptyString
                        then "Failed to generate summary"
                        else message error))).
End WithParser.

End Summary.

(** ** The process state: scratch files and calls that leave the process *)

Inductive Call : Type :=
| CallEncoder (command : string)   (* [execAsync(command)] *)
| CallSpeech (path : string)       (* [openai.audio.transcriptions.create] on the file at [path] *).

(** The file system maps the path of every existing file to its size in bytes. *)
Record World := mkWorld {
  files : gmap string N;
  calls : list Call
}.

(** Computations over a state [S] that return or throw. *)
Definition M (S A : Type) : Type := S -> S * Completion A.

Module MonadM.

Definition ret {S A} (a : A) : M S A := fun s => (s, Normal a).

Definition throw {S A} (e : JsError) : M S A := fun s => (s, Throw e).

Definition bind {S A B} (m : M S A) (k : A -> M S B) : M S B :=
  fun s =>
    match m s with
    | (s', Normal a) => k a s'
    | (s', Throw e) => (s', Throw e)
    end.

Definition get {S} : M S S := fun s => (s, Normal s).

Definition modify {S} (f : S -> S) : M S unit := fun s => (f s, Normal tt).

(** A step that cannot change the state. *)
Definition lift {S A} (f : S -> Completion A) : M S A := fun s => (s, f s).

(** [try { body } catch (e) { handler e }] *)
Definition tryCatch {S A} (body : M S A) (handler : JsError -> M S A) : M S A :=
  fun s =>
    match body s with
    | (s', Normal a) => (s', Normal a)
    | (s', Throw e) => handler e s'
    end.

(** [try { body } finally { cleanup }]: the cleanup runs either way, and
    the completion of the body stands unless the cleanup throws. *)
Definition tryFinally {S A} (body : M S A) (cleanup : M S unit) : M S A :=
  fun s =>
    match body s with
    | (s', r) =>
        match cleanup s' with
        | (s'', Normal _) => (s'', r)
        | (s'', Throw e) => (s'', Throw e)
        end
    end.

Definition when {S} (b : bool) (m : M S unit) : M S unit :=
  if b then m else ret tt.

End MonadM.

Declare Scope m_scope.
Delimit Scope m_scope with M.
Notation "x <- c ;; k" := (MonadM.bind c (fun x => k))
  (at level 100, c at next level, right associativity) : m_scope.
Notation "c ;;; k" := (MonadM.bind c (fun _ => k))
  (at level 100, right associativity) : m_scope.

(** ** The [fs] calls the server makes *)
Module Fs.
Import MonadM.

(** [fs.existsSync(p)] *)
Definition existsSync (p : string) (w : World) : bool :=
  match files w !! p with Some _ => true | None => false end.

Definition enoent (syscall p : string) : JsError :=
  newError ("ENOENT: no such file or directory, " ++ syscall ++ " '" ++ p ++ "'").

(** [fs.statSync(p).size] *)
Definition statSyncSize (p : string) : M World N :=
  fun w =>
    match files w !! p with
    | Some size => (w, Normal size)
    | None => (w, Throw (enoent "stat" p))
    end.

Definition remove (p : string) (w : World) : World :=
  {| files := delete p (files w); calls := calls w |}.

(** [fs.unlinkSync(p)] *)
Definition unlinkSync (p : string) : M World unit :=
  fun w =>
    match files w !! p with
    | Some _ => (remove p w, Normal tt)
    | None => (w, Throw (enoent "unlink" p))
    end.

(** [fs.unlink(p, (err) => { if (err) console.error(...) })]: the file is
    removed when it is there, and a failure is only logged. *)
Definition unlink (p : string) : M World unit :=
  fun w => (remove p w, Normal tt).

End Fs.

(** ** Transcription (server/transcription.ts) *)
Module Transcription.
Import MonadM Fs.

(** The reply of the speech service. *)
Record ApiTranscription := mkApiTranscription {
  api_text : string;
  api_duration : option spec_float   (* [None] when the reply has no duration *)
}.

Record Result := mkResult {
  text : string;
  duration : spec_float
}.

Definition zero : spec_float := S754_zero false.

(** [transcription.duration || 0] *)
Definition durationOrZero (d : option spec_float) : spec_float :=
  match d with
  | None | Some (S754_zero _) | Some S754_nan => zero
  | Some x => x
  end.

(** [apiError.error?.message || "OpenAI API error"] *)
Definition apiMessage (data : option string) : string :=
  match data with
  | None | Some EmptyString => "OpenAI API error"
  | Some m => m
  end.

Section WithService.
(** [openai.audio.transcriptions.create] on a file of the given path,
    in the given file system. *)
Variable transcriptionsCreate : string -> gmap string N -> Completion ApiTranscription.

Definition callSpeech (audioFilePath : string) : M World ApiTranscription :=
  fun w =>
    ({| files := files w; calls := calls w ++ [CallSpeech audioFilePath] |},
     transcriptionsCreate audioFilePath (files w)).

Definition transcribeAudio (audioFilePath : string) : M World Result :=
  tryCatch
    (exists_ <- lift (fun w => Normal (existsSync audioFilePath w)) ;;
     if negb exists_ then throw (newError "Audio file not found")
     else
       transcription <- callSpeech audioFilePath ;;
       ret {| text := api_text transcription;
              duration := durationOrZero (api_duration transcription) |})%M
    (fun error =>
       match response error with
       | Some {| resp_data := Some data |} => throw (newError (apiMessage data))
       | _ => throw (newError ("Failed to transcribe audio: " ++ message error))
       end).
End WithService.

End Transcription.

(** ** The transcribe endpoint (the two variants of server/routes.ts) *)
Module Routes.
Import MonadM Fs.

(** [req.file], as the upload middleware stores it. *)
Record UploadedFile := mkUploadedFile {
  path : string;
  originalname : string
}.

(** The validated transcription object sent with status 200. *)
Record Transcript := mkTranscript {
  t_text : string;
  t_duration : spec_float;
  t_filename : string;
  t_wasCompressed : option bool   (* [None] in the variant without compression *)
}.

Inductive Body : Type :=
| MessageBody (msg : string)        (* [{ message }] *)
| TranscriptBody (t : Transcript).

Record Response := mkResponse {
  status : N;
  body : Body
}.

(** [25 * 1024 * 1024] *)
Definition maxWhisperFileSize : N := 25 * 1024 * 1024.

Definition twoDigits (n : N) : string :=
  if (n <? 10)%N then "0" ++ pretty n else pretty n.

(** [(size / (1024 * 1024)).toFixed(2)]: the quotient is exact in a
    double (a division by a power of two), and [toFixed(2)] takes the
    nearest multiple of 0.01, the larger one on a tie. *)
Definition megabytesFixed2 (size : N) : string :=
  let hundredths := ((size * 100 + 524288) / 1048576)%N in
  pretty (hundredths / 100)%N ++ "." ++ twoDigits (hundredths mod 100)%N.

Definition stillTooLarge (newSize : N) : JsError :=
  newError ("File still too large after compression (" ++ megabytesFixed2 newSize
            ++ "MB). Try a shorter audio clip.").

(** [error.message || "Failed to transcribe audio"] *)
Definition messageOrDefault (error : JsError) : string :=
  if String.eqb (message error) EmptyString then "Failed to transcribe audio"
  else message error.

(** Lines 202-209 (and 82-89 of the simple variant): an error that
    carries a truthy [response.status] becomes a response with that
    status; any other error is thrown again. *)
Definition handleApiError {S} (error : JsError) : M S Response :=
  match response error with
  | Some {| resp_status := Some st; resp_data := data |} =>
      if (st =? 0)%N then throw error
      else ret {| status := st;
                  body := MessageBody
                            (match data with
                             | Some (Some m) =>
                                 if String.eqb m EmptyString then "OpenAI API error" else m
                             | _ => "OpenAI API error"
                             end) |}
  | _ => throw error
  end.

(** The outermost handler: status 500 with the message of the error. *)
Definition handleAnyError {S} (error : JsError) : M S Response :=
  ret {| status := 500; body := MessageBody (messageOrDefault error) |}.

(** The local variables of the handler that its [finally] block reads. *)
Record Locals := mkLocals {
  world : World;
  audioPath : string;
  wasCompressed : bool
}.

Definition onWorld {A} (m : M World A) : M Locals A :=
  fun s =>
    match m (world s) with
    | (w', r) =>
        ({| world := w'; audioPath := audioPath s; wasCompressed := wasCompressed s |}, r)
    end.

Definition setAudioPath (p : string) : M Locals unit :=
  modify (fun s => {| world := world s; audioPath := p; wasCompressed := wasCompressed s |}).

Definition setWasCompressed (b : bool) : M Locals unit :=
  modify (fun s => {| world := world s; audioPath := audioPath s; wasCompressed := b |}).

Section WithRuntime.
(** [path.dirname], [path.basename] and [path.join] of the runtime. *)
Variable path_dirname : string -> string.
Variable path_basename : string -> string.
Variable path_join : string -> string -> string.

(** The encoder run by [execAsync(command)]: whether the call rejects,
    and the files it leaves. *)
Variable execAsync : string -> gmap string N -> option JsError * gmap string N.

Variable transcriptionsCreate :
  string -> gmap string N -> Completion Transcription.ApiTranscription.

Definition outputPathOf (inputPath : string) : string :=
  path_join (path_dirname inputPath)
            ("compressed-" ++ path_basename inputPath ++ ".ogg").

Definition dq : string := String (ascii_of_nat 34) EmptyString.

Definition encoderCommand (inputPath outputPath : string) : string :=
  "ffmpeg -i " ++ dq ++ inputPath ++ dq
  ++ " -vn -map_metadata -1 -ac 1 -c:a libopus -b:a 12k -application voip "
  ++ dq ++ outputPath ++ dq.

Definition runEncoder (command : string) : M World unit :=
  fun w =>
    match execAsync command (files w) with
    | (failure, files') =>
        ({| files := files'; calls := calls w ++ [CallEncoder command] |},
         match failure with
         | Some e => Throw e
         | None => Normal tt
         end)
    end.

(** Lines 68-99 of the variant with compression. *)
Definition compressAudioFile (inputPath : string) : M World string :=
  let outputPath := outputPathOf inputPath in
  tryCatch
    (runEncoder (encoderCommand inputPath outputPath) ;;;
     present <- lift (fun w => Normal (existsSync outputPath w)) ;;
     size <- (if present then statSyncSize outputPath else ret 0%N) ;;
     if negb present || (size =? 0)%N then
       throw (newError "Failed to compress audio: Output file is missing or empty")
     else
       unlinkSync inputPath ;;;
       ret outputPath)%M
    (fun error => ret inputPath).

(** Lines 152-185: the body of the inner [try].  The object handed to
    [transcriptionSchema.parse] has a string [text], a [duration] that is a
    number and not NaN, a string [filename] and a boolean [wasCompressed]:
    the schema accepts it and returns it as it is. *)
Definition transcribeBody (file : UploadedFile) : M Locals Response :=
  let filePath := path file in
  (fileSize <- onWorld (statSyncSize filePath) ;;
   (if (maxWhisperFileSize <? fileSize)%N then
      compressed <- onWorld (compressAudioFile filePath) ;;
      setAudioPath compressed ;;;
      setWasCompressed (negb (String.eqb compressed filePath)) ;;;
      newSize <- onWorld (statSyncSize compressed) ;;
      if (maxWhisperFileSize <? newSize)%N then throw (stillTooLarge newSize)
      else ret tt
    else ret tt) ;;;
   s <- get ;;
   transcription <-
     onWorld (Transcription.transcribeAudio transcriptionsCreate (audioPath s)) ;;
   ret {| status := 200;
          body := TranscriptBody
                    {| t_text := Transcription.text transcription;
                       t_duration := Transcription.duration transcription;
                       t_filename := originalname file;
                       t_wasCompressed := Some (wasCompressed s) |} |})%M.

(** Lines 186-200: the [finally] block. *)
Definition cleanup (file : UploadedFile) : M Locals unit :=
  let filePath := path file in
  (s <- get ;;
   when (existsSync (audioPath s) (world s)) (onWorld (unlink (audioPath s))) ;;;
   s' <- get ;;
   when (wasCompressed s' && existsSync filePath (world s'))
        (onWorld (unlink filePath)))%M.

(** Lines 140-215: the handler of [POST /api/transcribe] with compression. *)
Definition transcribeHandler (reqFile : option UploadedFile) : M Locals Response :=
  tryCatch
    (match reqFile with
     | None => ret {| status := 400; body := MessageBody "No audio file provided" |}
     | Some file =>
         tryCatch
           (setAudioPath (path file) ;;;
            setWasCompressed false ;;;
            tryFinally (transcribeBody file) (cleanup file))%M
           handleApiError
     end)
    handleAnyError.

(** The handler run on a request: the world it leaves and the response it
    sends.  The outermost [catch] answers every error, so the handler
    itself never throws and the last case below is never taken. *)
Definition transcribeRoute (reqFile : option UploadedFile) (w : World)
  : World * Response :=
  match transcribeHandler reqFile
          {| world := w; audioPath := EmptyString; wasCompressed := false |} with
  | (s, Normal r) => (world s, r)
  | (s, Throw e) =>
      (world s, {| status := 500; body := MessageBody (messageOrDefault e) |})
  end.

(** Lines 50-95 of the variant without compression (server/routes.ts). *)
Definition transcribeHandlerSimple (reqFile : option UploadedFile) : M World Response :=
  tryCatch
    (match reqFile with
     | None => ret {| status := 400; body := MessageBody "No audio file provided" |}
     | Some file =>
         let filePath := path file in
         tryCatch
           (transcription <- Transcription.transcribeAudio transcriptionsCreate filePath ;;
            unlink filePath ;;;
            ret {| status := 200;
                   body := TranscriptBody
                             {| t_text := Transcription.text transcription;
                                t_duration := Transcription.duration transcription;
                                t_filename := originalname file;
                                t_wasCompressed := None |} |})%M
           (fun error => (unlink filePath ;;; handleApiError error)%M)
     end)
    handleAnyError.

Definition transcribeRouteSimple (reqFile : option UploadedFile) (w : World)
  : World * Response :=
  match transcribeHandlerSimple reqFile w with
  | (w', Normal r) => (w', r)
  | (w', Throw e) =>
      (w', {| status := 500; body := MessageBody (messageOrDefault e) |})
  end.

End WithRuntime.

(** The same encoder, failing with [e'] whenever it fails. *)
Definition replaceFailure (e' : JsError)
    (execAsync : string -> gmap string N -> option JsError * gmap string N)
  : string -> gmap string N -> option JsError * gmap string N :=
  fun command fs =>
    match execAsync command fs with
    | (Some _, fs') => (Some e', fs')
    | (None, fs') => (None, fs')
    end.

(** The encoder call resolved and left a non-empty file at [outputPath]. *)
Definition encoderProduced (outputPath : string)
    (outcome : option JsError * gmap string N) : bool :=
  match outcome with
  | (None, fs') =>
      match fs' !! outputPath with
      | Some size => negb (size =? 0)%N
      | None => false
      end
  | (Some _, _) => false
  end.

(** *** A concrete runtime for paths below a directory

    [path.dirname], [path.basename] and [path.join] on normalized paths
    [dir/name] with one or more separators and no trailing one. *)
Module PosixPath.

Definition isSlash (c : ascii) : bool := Ascii.eqb c "/".

(** The characters after the last separator, read from the back. *)
Fixpoint lastPart (rev_s : list ascii) : list ascii :=
  match rev_s with
  | [] => []
  | c :: rest => if isSlash c then [] else c :: lastPart rest
  end.

Fixpoint beforeLastSlash (rev_s : list ascii) : list ascii :=
  match rev_s with
  | [] => []
  | c :: rest => if isSlash c then rest else beforeLastSlash rest
  end.

Definition basename (p : string) : string :=
  string_of_list_ascii (List.rev (lastPart (List.rev (list_ascii_of_string p)))).

Definition dirname (p : string) : string :=
  string_of_list_ascii (List.rev (beforeLastSlash (List.rev (list_ascii_of_string p)))).

Definition join (dir name : string) : string := dir ++ "/" ++ name.

End PosixPath.

End Routes.

(** ** Concrete replies and transcripts *)
Module Samples.

Definition quoted (s : string) : string :=
  String JsonText.dquote (s ++ String JsonText.dquote EmptyString).

(** [[{"speaker":"Speaker 1","text":"Hi there. How are you? Fine, thanks."}]] *)
Definition singleSpeakerReply : string :=
  "[{" ++ quoted "speaker" ++ ":" ++ quoted "Speaker 1" ++ ","
  ++ quoted "text" ++ ":" ++ quoted "Hi there. How are you? Fine, thanks." ++ "}]".

(** [{"keyPoints":["Budget approved"],"topics":[]}] *)
Definition summaryWithoutActions : string :=
  "{" ++ quoted "keyPoints" ++ ":[" ++ quoted "Budget approved" ++ "],"
  ++ quoted "topics" ++ ":[]}".

(** [{"segments":[]}] *)
Definition emptySegmentsReply : string := "{" ++ quoted "segments" ++ ":[]}".

Definition garbageReply : string := "Sure! Here are the speakers:".

(** Twelve sentences, 263 characters. *)
Definition monologue : string :=
  String.concat " " (List.repeat "This is one sentence." 12).

(** [{"speaker1":"This is one sentence. ... This is one sentence."}] *)
Definition monologueReply : string :=
  "{" ++ quoted "speaker1" ++ ":" ++ quoted monologue ++ "}".

(** [{"speaker":"Interviewer","text":"This is one sentence. ... This is one sentence."}] *)
Definition interviewerReply : string :=
  "{" ++ quoted "speaker" ++ ":" ++ quoted "Interviewer" ++ ","
  ++ quoted "text" ++ ":" ++ quoted monologue ++ "}".

Definition shortTranscript : string := "Hello there. How are you?".

Definition longTranscript : string :=
  "How are you? Fine. And you? well, I am busy. Bye.".

Definition uploadPath : string := "/tmp/uploads/1700000000000-42.wav".

Definition compressedPath : string := "/tmp/uploads/compressed-1700000000000-42.wav.ogg".

Definition upload : Routes.UploadedFile :=
  {| Routes.path := uploadPath; Routes.originalname := "meeting.wav" |}.

Definition megabytes (n : N) : N := (n * 1024 * 1024)%N.

(** A world whose only file is the upload, of the given size. *)
Definition worldWithUpload (size : N) : World :=
  {| files := {[ uploadPath := size ]}; calls := [] |}.

(** An encoder run that exits normally and leaves an output file of the
    given size next to the input. *)
Definition encoderWrites (size : N) (command : string) (fs : gmap string N)
  : option JsError * gmap string N :=
  (None, <[ compressedPath := size ]> fs).

(** An encoder run that fails after it has written part of the output. *)
Definition encoderFailsLeaving (size : N) (command : string) (fs : gmap string N)
  : option JsError * gmap string N :=
  (Some (newError "Command failed: ffmpeg"), <[ compressedPath := size ]> fs).

Definition speechReplies (path : string) (fs : gmap string N)
  : Completion Transcription.ApiTranscription :=
  Normal {| Transcription.api_text := "Hello there.";
            Transcription.api_duration := None |}.

(** The error of a speech call refused with status 429. *)
Definition rateLimited : JsError :=
  {| message := "Request failed with status code 429";
     response := Some {| resp_status := Some 429%N;
                         resp_data := Some (Some "Rate limit reached") |} |}.

Definition speechRateLimited (path : string) (fs : gmap string N)
  : Completion Transcription.ApiTranscription :=
  Throw rateLimited.

End Samples.

(** ** The upload filter of the endpoint (the [multer] options of server/routes.ts) *)
Module Upload.

(** Lines 123-128 (33-38 of the simple variant). *)
Definition allowedMimes : list string :=
  ["audio/mpeg"; "audio/wav"; "audio/mp4"; "audio/x-m4a"].

(** [allowedMimes.includes(mimetype)] *)
Definition includesMime (types : list string) (mimetype : string) : bool :=
  existsb (String.eqb mimetype) types.

(** Lines 121-135: [fileFilter]; [cb(null, true)] accepts the file and
    [cb(new Error(...))] fails the upload. *)
Definition fileFilter (mimetype : string) : Completion bool :=
  if includesMime allowedMimes mimetype then Normal true
  else Throw (newError "Invalid file type. Only MP3, WAV, and M4A files are allowed.").

(** [limits.fileSize] of the variant with compression and of the simple one. *)
Definition fileSizeLimit : N := 100 * 1024 * 1024.
Definition fileSizeLimitSimple : N := 25 * 1024 * 1024.

End Upload.

(** ** Client-side file helpers (client/src/lib/fileUtils.ts) *)
Module FileUtils.

(** The two fields of a browser [File] the helpers read. *)
Record File := mkFile {
  type : string;
  size : N
}.

(** Lines 16-30: [validateAudioFile]; [None] stands for [null]. *)
Definition validateAudioFile (file : File) : option string :=
  let validTypes := ["audio/mpeg"; "audio/wav"; "audio/mp4"; "audio/x-m4a"] in
  if negb (Upload.includesMime validTypes (type file)) then
    Some "Invalid file type. Please upload an MP3, WAV, or M4A file."
  else
    let maxSize := (25 * 1024 * 1024)%N in
    if (maxSize <? size file)%N then Some "File size exceeds the 25MB limit."
    else None.

Definition units : list string := ["B"; "KB"; "MB"; "GB"].

(** Lines 8-11: the loop.  [size] starts at [bytes] and is divided by 1024
    at each turn, which is exact in a double, so after [unitIndex] turns it
    is [bytes / 1024 ^ unitIndex] and [size >= 1024] reads
    [1024 ^ (unitIndex + 1) <= bytes].  [room] is
    [units.length - 1 - unitIndex]. *)
Fixpoint scaleLoop (room : nat) (bytes : N) (unitIndex : nat) : nat :=
  match room with
  | O => unitIndex
  | S room' =>
      if (1024 ^ N.of_nat (unitIndex + 1) <=? bytes)%N
      then scaleLoop room' bytes (S unitIndex)
      else unitIndex
  end.

Definition unitIndexOf (bytes : N) : nat :=
  scaleLoop (List.length units - 1) bytes 0.

(** The number of tenths [size.toFixed(1)] prints for
    [size = bytes / 1024 ^ unitIndex]: the nearest one, the larger on a tie. *)
Definition tenthsOf (bytes : N) (unitIndex : nat) : N :=
  ((bytes * 20 + 1024 ^ N.of_nat unitIndex) / (2 * 1024 ^ N.of_nat unitIndex))%N.

(** Lines 1-14: [formatFileSize], for a byte count below [2 ^ 53]. *)
Definition formatFileSize (bytes : N) : string :=
  if (bytes =? 0)%N then "0 B"
  else
    let unitIndex := unitIndexOf bytes in
    let tenths := tenthsOf bytes unitIndex in
    pretty (tenths / 10)%N ++ "." ++ pretty (tenths mod 10)%N ++ " "
    ++ nth unitIndex units EmptyString.

End FileUtils.

(** ** Reading results back *)
Module Observe.
Import JsString Js.

(** The [text] and the [speaker] of a returned segment, when they are strings. *)
Definition segmentText (v : JsValue) : string :=
  match v with
  | JObject props =>
      match lookupProp props "text" with
      | JString t => t
      | _ => EmptyString
      end
  | _ => EmptyString
  end.

Definition segmentSpeaker (v : JsValue) : string :=
  match v with
  | JObject props =>
      match lookupProp props "speaker" with
      | JString t => t
      | _ => EmptyString
      end
  | _ => EmptyString
  end.

(** The characters of a string that are not white space. *)
Fixpoint removeWhite (s : string) : string :=
  match s with
  | EmptyString => EmptyString
  | String c s' => if isWhiteSpace c then removeWhite s' else String c (removeWhite s')
  end.

(** The pieces put back one after the other. *)
Fixpoint flatten (pieces : list string) : string :=
  match pieces with
  | [] => EmptyString
  | p :: rest => p ++ flatten rest
  end.

(** The last character of a string is [.], [?] or [!]. *)
Definition endsWithTerminator (s : string) : bool :=
  endsWith s "." || endsWith s "?" || endsWith s "!".

(** "Speaker 1", "Speaker 2", "Speaker 1", ... *)
Fixpoint alternating (first : bool) (n : nat) : list string :=
  match n with
  | O => []
  | S n' => (if first then "Speaker 1" else "Speaker 2") :: alternating (negb first) n'
  end.

(** How many times a turn-taking signal fires between neighbours. *)
Fixpoint signalsFired (prev : string) (rest : list string) : nat :=
  match rest with
  | [] => 0
  | s :: rest' =>
      (if Diarization.speakerChange prev s then 1 else 0) + signalsFired s rest'
  end.

(** One more than the signals fired along the sentences. *)
Definition turnsIn (sentences : list string) : nat :=
  match sentences with
  | [] => 0
  | first :: rest => 1 + signalsFired first rest
  end.

(** A number, a string or a boolean. *)
Definition isScalar (v : JsValue) : bool :=
  match v with
  | JBool _ | JNumber _ | JString _ => true
  | _ => false
  end.

End Observe.

(** * Properties *)

Local Open Scope list_scope.

(** ** Completions and strings *)

Lemma try_catch_returns {A} (body : Completion A) (handler : JsError -> Completion A) :
  (forall e, exists a, handler e = Normal a) ->
  exists a, try_catch body handler = Normal a.
Proof.
  intros Hh. destruct body as [a|e]; simpl.
  - exists a. reflexivity.
  - apply Hh.
Qed.

Lemma append_assoc (a b c : string) : ((a ++ b) ++ c)%string = (a ++ b ++ c)%string.
Proof.
  induction a as [|x a IH].
  - reflexivity.
  - change (String x ((a ++ b) ++ c) = String x (a ++ b ++ c))%string.
    f_equal. exact IH.
Qed.

Lemma join_snoc (sep : string) (l : list string) (s : string) :
  l <> [] ->
  JsString.join sep (l ++ [s]) = (JsString.join sep l ++ sep ++ s)%string.
Proof.
  unfold JsString.join.
  induction l as [|x l IH]; intros Hne.
  - congruence.
  - destruct l as [|y l].
    + reflexivity.
    + change (String.concat sep ((x :: y :: l) ++ [s]))
        with (x ++ sep ++ String.concat sep ((y :: l) ++ [s]))%string.
      rewrite IH by discriminate.
      change (String.concat sep (x :: y :: l))
        with (x ++ sep ++ String.concat sep (y :: l))%string.
      rewrite !append_assoc. reflexivity.
Qed.

Lemma halfUp_bounds (n : nat) :
  n <= 2 * Diarization.halfUp n /\ 2 * Diarization.halfUp n <= n + 1.
Proof.
  unfold Diarization.halfUp.
  pose proof (Nat.div_mod_eq (n + 1) 2) as Hd.
  pose proof (Nat.mod_upper_bound (n + 1) 2) as Hm.
  lia.
Qed.

(** ** Diarization *)
Module DiarizationFacts.
Import JsString Js Chat Diarization.

Lemma signal_speakerChange (prev curr : string) :
  TurnTaking.signal prev curr = speakerChange prev curr.
Proof.
  unfold TurnTaking.signal, speakerChange, TurnTaking.prevPhrases, TurnTaking.currPhrases.
  cbn [existsb].
  generalize (endsWith prev "?"), (includes prev "thank you"),
    (includes prev "could you"), (includes prev "what do you think"),
    (includes curr "yeah"), (includes curr "okay"),
    (includes curr "so,"), (includes curr "well,").
  intros [] [] [] [] [] [] [] []; reflexivity.
Qed.

Lemma otherSpeaker_name (first : bool) :
  otherSpeaker (TurnTaking.speakerName first) = TurnTaking.speakerName (negb first).
Proof. destruct first; reflexivity. Qed.

(** The loop, started in the middle of a run, produces the labelled runs. *)
Lemma walk_cut (rest : list string) :
  forall (segments : list JsValue) (first : bool) (run : list string) (prev : string),
    run <> [] ->
    walk segments (TurnTaking.speakerName first) (join " " run) prev rest
    = (segments ++ TurnTaking.label first
                     ((run ++ fst (TurnTaking.cut prev rest))
                      :: snd (TurnTaking.cut prev rest)))%list.
Proof.
  induction rest as [|s rest IH]; intros segments first run prev Hrun.
  - simpl. rewrite app_nil_r. destruct first; reflexivity.
  - cbn [walk TurnTaking.cut].
    rewrite <- signal_speakerChange.
    destruct (TurnTaking.cut s rest) as [r later] eqn:Hcut.
    destruct (TurnTaking.signal prev s).
    + rewrite otherSpeaker_name.
      change s with (join " " [s]) at 1.
      rewrite (IH _ (negb first) [s] s) by discriminate.
      rewrite Hcut. cbn [fst snd]. rewrite app_nil_r.
      cbn [TurnTaking.label]. rewrite <- app_assoc.
      destruct first; reflexivity.
    + rewrite <- join_snoc by assumption.
      rewrite (IH segments first (run ++ [s]) s).
      * rewrite Hcut. cbn [fst snd]. rewrite <- app_assoc. reflexivity.
      * destruct run; discriminate.
Qed.

Lemma cut_concat (rest : list string) :
  forall prev,
    (fst (TurnTaking.cut prev rest) ++ concat (snd (TurnTaking.cut prev rest)))%list = rest.
Proof.
  induction rest as [|s rest IH]; intros prev.
  - reflexivity.
  - cbn [TurnTaking.cut]. specialize (IH s).
    destruct (TurnTaking.cut s rest) as [r later]. cbn [fst snd] in IH.
    destruct (TurnTaking.signal prev s); cbn [fst snd concat app];
      rewrite ?IH; congruence.
Qed.

(** No sentence is lost or reordered by the cut into runs. *)
Lemma runs_concat (l : list string) : concat (TurnTaking.runs l) = l.
Proof.
  destruct l as [|first rest]; [reflexivity|].
  unfold TurnTaking.runs. pose proof (cut_concat rest first) as H.
  destruct (TurnTaking.cut first rest) as [r later]. cbn [fst snd] in H.
  cbn [concat app]. rewrite H. reflexivity.
Qed.

Lemma walk_segments (first : string) (rest : list string) :
  walk [] "Speaker 1" first first rest = TurnTaking.segments (first :: rest).
Proof.
  unfold TurnTaking.segments, TurnTaking.runs.
  change (walk [] "Speaker 1" first first rest)
    with (walk [] (TurnTaking.speakerName true) (join " " [first]) first rest).
  rewrite (walk_cut rest [] true [first] first) by discriminate.
  destruct (TurnTaking.cut first rest) as [r later]. reflexivity.
Qed.

Lemma walk_nonempty (rest : list string) :
  forall segments currentSpeaker currentText prevSentence,
    walk segments currentSpeaker currentText prevSentence rest <> [].
Proof.
  induction rest as [|s rest IH]; intros segments sp text prev; cbn [walk].
  - destruct segments; discriminate.
  - destruct (speakerChange prev s); apply IH.
Qed.

Lemma sentenceFallback_nonempty (transcriptText : string) :
  sentenceFallback transcriptText <> [].
Proof.
  unfold sentenceFallback.
  destruct (Nat.leb _ 2); [discriminate|].
  destruct (sentences transcriptText); [discriminate|apply walk_nonempty].
Qed.

Lemma recoverEntries_nonempty (segments : list (JsValue * JsValue)) :
  segments <> [] -> recoverEntries segments <> [].
Proof.
  intros Hne. unfold recoverEntries.
  destruct segments as [|[speaker text] rest]; [congruence|].
  destruct text, rest; try discriminate.
  destruct (Nat.ltb 200 _); [|discriminate].
  destruct (Nat.ltb 0 _); discriminate.
Qed.

(** Outside the array branch, only a [segments] or [speakers] field that is
    an empty array leads to an empty result. *)
Lemma recoverOther_empty (transcriptText : string) (result : JsValue) :
  recoverOther transcriptText result = Normal [] -> emptyArrayReply result.
Proof.
  unfold recoverOther, emptyArrayReply, splitAtMidpoint.
  destruct result as [| |b|x|s|elems|props]; cbn [getProp cbind]; try discriminate.
  intros H. right. exists props. split; [reflexivity|].
  destruct (lookupProp props "segments") as [| |b|x|s|l|o] eqn:Hseg;
    try (destruct l; [left; reflexivity|discriminate]);
    (destruct (lookupProp props "speakers") as [| |b'|x'|s'|l'|o'] eqn:Hsp;
     try (destruct l'; [right; reflexivity|discriminate]);
     (destruct (omap (entrySegment props) props) as [|seg rest] eqn:Hent;
      [discriminate|];
      exfalso; apply (recoverEntries_nonempty (seg :: rest));
      [discriminate | congruence])).
Qed.

Lemma recoverArray_empty (elems : list JsValue) :
  recoverArray elems = Normal [] -> elems = [].
Proof.
  unfold recoverArray.
  destruct elems as [|only rest]; [reflexivity|].
  destruct rest; [|discriminate].
  destruct (getProp only "text") as [text|e]; cbn [cbind]; [|discriminate].
  destruct (splitText text) as [segments|e]; cbn [cbind]; [|discriminate].
  destruct (Nat.ltb 1 (List.length segments)); discriminate.
Qed.

Section WithParser.
Variable JSON_parse : string -> Completion JsValue.

(** The diarizer never throws, whatever the upstream call gives. *)
Lemma identifySpeakers_returns (transcriptText : string) (up : Upstream) :
  exists segments, identifySpeakers JSON_parse transcriptText up = Normal segments.
Proof.
  unfold identifySpeakers. apply try_catch_returns.
  intros e. eexists. reflexivity.
Qed.

(** A reply that is not empty and that [JSON.parse] rejects is handled
    by the sentence fallback. *)
Lemma identifySpeakers_unparsable (transcriptText content : string) (e : JsError) :
  content <> EmptyString ->
  JSON_parse content = Throw e ->
  identifySpeakers JSON_parse transcriptText (Reply (Some content))
  = Normal (sentenceFallback transcriptText).
Proof.
  intros Hne Hparse. unfold identifySpeakers. cbn [readContent cbind].
  destruct content as [|c content]; [congruence|].
  rewrite Hparse. reflexivity.
Qed.

Lemma identifySpeakers_parsed (transcriptText content : string) (result : JsValue) :
  content <> EmptyString ->
  JSON_parse content = Normal result ->
  identifySpeakers JSON_parse transcriptText (Reply (Some content))
  = try_catch
      (try_catch (recover transcriptText result)
                 (fun _ => Normal (sentenceFallback transcriptText)))
      (fun _ => Normal [segment "Unknown" transcriptText]).
Proof.
  intros Hne Hparse. unfold identifySpeakers. cbn [readContent cbind].
  destruct content as [|c content]; [congruence|].
  rewrite Hparse. reflexivity.
Qed.

(** The result has at least one element, unless the reply parses to an
    empty array or to an object whose [segments] or [speakers] field is an
    empty array. *)
Lemma identifySpeakers_empty_only_from_empty_array
    (transcriptText : string) (up : Upstream) :
  identifySpeakers JSON_parse transcriptText up = Normal [] ->
  exists content result,
    up = Reply (Some content)
    /\ JSON_parse content = Normal result
    /\ emptyArrayReply result.
Proof.
  destruct up as [e| |[content|]]; try discriminate.
  destruct (string_dec content EmptyString) as [->|Hne]; [discriminate|].
  destruct (JSON_parse content) as [result|e] eqn:Hparse.
  - rewrite (identifySpeakers_parsed _ _ _ Hne Hparse).
    intros H. exists content, result. split; [reflexivity|]. split; [exact Hparse|].
    destruct result as [| |b|x|s|elems|props];
      try (apply (recoverOther_empty transcriptText);
           cbn [recover] in H;
           destruct (recoverOther transcriptText _) as [l|e']; cbn in H;
           [exact H | exfalso; injection H; apply sentenceFallback_nonempty]).
    left. f_equal. apply recoverArray_empty.
    cbn [recover] in H.
    destruct (recoverArray elems) as [l|e']; cbn in H;
      [exact H | exfalso; injection H; apply sentenceFallback_nonempty].
  - rewrite (identifySpeakers_unparsable _ _ _ Hne Hparse).
    intros [= H]. exfalso. revert H. apply sentenceFallback_nonempty.
Qed.

End WithParser.

End DiarizationFacts.

Module DiarizationClaims.
Import JsString Js Chat Diarization Samples.

(** C1 (the code departs from the claim).  The claim: for every upstream
    reply the diarizer returns normally with at least one segment.  The
    diarizer does return normally, but when the reply is the object
    [{"segments":[]}] line 98 returns its empty [segments] array, and when
    the reply is [[]] line 96 returns that empty array: no segment at all,
    for every transcript. *)
Theorem empty_array_reply_yields_no_segment (transcriptText : string) :
  JsonText.parse emptySegmentsReply = Normal (JObject [("segments", JArray [])])
  /\ identifySpeakers JsonText.parse transcriptText (Reply (Some emptySegmentsReply))
     = Normal []
  /\ JsonText.parse "[]" = Normal (JArray [])
  /\ identifySpeakers JsonText.parse transcriptText (Reply (Some "[]")) = Normal [].
Proof. repeat split; reflexivity. Qed.

(** C2 as stated fails: a reply that is not JSON over a transcript of two
    sentences leaves a segment that is not labelled "Unknown". *)
Lemma unparsable_short_transcript_not_unknown :
  JsonText.parse garbageReply = Throw JsonText.syntaxError
  /\ List.length (sentences shortTranscript) <= 2
  /\ identifySpeakers JsonText.parse shortTranscript (Reply (Some garbageReply))
     <> Normal [segment "Unknown" shortTranscript].
Proof.
  split; [reflexivity|]. split.
  - vm_compute. lia.
  - vm_compute. discriminate.
Qed.

Section WithParser.
Variable JSON_parse : string -> Completion JsValue.

(** C2 (amended).  On total failure of diarization the diarizer returns
    exactly one segment whose text is the entire transcript; the segment
    is labelled "Speaker 1" when the reply does not parse as JSON and
    the transcript splits into at most 2 sentences, and "Unknown" when
    the whole call raises. *)
Theorem total_failure_single_segment
    (transcriptText : string) (up : Upstream) (label : string) :
  TotalFailure JSON_parse transcriptText up label ->
  identifySpeakers JSON_parse transcriptText up
  = Normal [segment label transcriptText].
Proof.
  intros [content e Hne Hparse Hlen | e | ].
  - rewrite (DiarizationFacts.identifySpeakers_unparsable _ _ _ e Hne Hparse).
    unfold sentenceFallback.
    apply Nat.leb_le in Hlen. rewrite Hlen. reflexivity.
  - reflexivity.
  - reflexivity.
Qed.

(** C3.  When the reply parses as an array with exactly one element
    whose text has [n >= 2] sentences, the diarizer returns exactly two
    segments: "Speaker 1" with the first [ceil(n/2)] sentences and
    "Speaker 2" with the rest, each joined by single spaces. *)
Theorem single_element_reply_split
    (transcriptText content : string) (only : JsValue) (text : string) :
  content <> EmptyString ->
  JSON_parse content = Normal (JArray [only]) ->
  getProp only "text" = Normal (JString text) ->
  2 <= List.length (sentences text) ->
  let n := List.length (sentences text) in
  identifySpeakers JSON_parse transcriptText (Reply (Some content))
  = Normal [ segment "Speaker 1" (join " " (firstn (halfUp n) (sentences text)));
             segment "Speaker 2" (join " " (skipn (halfUp n) (sentences text))) ]
  /\ n <= 2 * halfUp n <= n + 1.
Proof.
  intros Hne Hparse Htext Hlen n. split; [|apply halfUp_bounds].
  rewrite (DiarizationFacts.identifySpeakers_parsed _ _ _ _ Hne Hparse).
  cbn [recover recoverArray]. rewrite Htext. cbn [cbind splitText].
  assert (Nat.ltb 1 (List.length (sentences text)) = true) as ->
    by (apply Nat.ltb_lt; lia).
  reflexivity.
Qed.

(** C4.  When the reply does not parse as JSON and the transcript has
    more than 2 sentences, the diarizer returns the sentences cut into
    runs, a new run starting exactly where a turn-taking signal fires,
    the runs labelled with alternating speakers from "Speaker 1" and
    each emitted as one segment; the runs together are the sentences in
    order. *)
Theorem unparsable_reply_walks_sentences
    (transcriptText content : string) (e : JsError) :
  content <> EmptyString ->
  JSON_parse content = Throw e ->
  2 < List.length (sentences transcriptText) ->
  identifySpeakers JSON_parse transcriptText (Reply (Some content))
  = Normal (TurnTaking.segments (sentences transcriptText))
  /\ concat (TurnTaking.runs (sentences transcriptText)) = sentences transcriptText.
Proof.
  intros Hne Hparse Hlen. split; [|apply DiarizationFacts.runs_concat].
  rewrite (DiarizationFacts.identifySpeakers_unparsable _ _ _ e Hne Hparse).
  unfold sentenceFallback.
  assert (Nat.leb (List.length (sentences transcriptText)) 2 = false) as ->
    by (apply Nat.leb_gt; lia).
  destruct (sentences transcriptText) as [|first rest]; [simpl in Hlen; lia|].
  rewrite DiarizationFacts.walk_segments. reflexivity.
Qed.

End WithParser.

Lemma total_failure_single_segment_witness :
  identifySpeakers JsonText.parse shortTranscript (Reply (Some garbageReply))
  = Normal [segment "Speaker 1" shortTranscript].
Proof.
  apply (total_failure_single_segment JsonText.parse).
  apply (tf_unparsable JsonText.parse shortTranscript garbageReply JsonText.syntaxError).
  - discriminate.
  - reflexivity.
  - vm_compute. lia.
Defined.

Lemma single_element_reply_split_witness :
  identifySpeakers JsonText.parse shortTranscript (Reply (Some singleSpeakerReply))
  = Normal [ segment "Speaker 1" "Hi there. How are you?";
             segment "Speaker 2" "Fine, thanks." ].
Proof.
  refine (proj1 (single_element_reply_split JsonText.parse shortTranscript
                   singleSpeakerReply
                   (segment "Speaker 1" "Hi there. How are you? Fine, thanks.")
                   "Hi there. How are you? Fine, thanks." _ _ _ _)).
  - discriminate.
  - reflexivity.
  - reflexivity.
  - vm_compute. lia.
Defined.

Lemma unparsable_reply_walks_sentences_witness :
  identifySpeakers JsonText.parse longTranscript (Reply (Some garbageReply))
  = Normal [ segment "Speaker 1" "How are you?";
             segment "Speaker 2" "Fine. And you?";
             segment "Speaker 1" "well, I am busy. Bye." ].
Proof.
  refine (proj1 (unparsable_reply_walks_sentences JsonText.parse longTranscript
                   garbageReply JsonText.syntaxError _ _ _)).
  - discriminate.
  - reflexivity.
  - vm_compute. lia.
Defined.

End DiarizationClaims.

(** ** Summaries *)
Module SummaryClaims.
Import Js Chat Summary Samples.

Section WithParser.
Variable JSON_parse : string -> Completion JsValue.

(** C7 as stated fails: the reply [null] parses as JSON and has no
    [actionItems], yet the summarizer returns nothing for it: reading
    [keyPoints] from [null] raises, and the summarizer throws. *)
Lemma null_reply_makes_summary_throw :
  JsonText.parse "null" = Normal JNull
  /\ generateSummary JsonText.parse (Reply (Some "null"))
     = Throw (newError "Cannot read properties of null (reading 'keyPoints')")
  /\ forall r, generateSummary JsonText.parse (Reply (Some "null")) <> Normal r.
Proof.
  split; [reflexivity|]. split; [reflexivity|].
  intros r. discriminate.
Qed.

(** C7 (amended).  An absent reply content yields the empty object, and
    whenever the content is absent or parses to a value other than [null],
    the summarizer returns with each field defaulted: a field the reply
    lacks comes back as the empty list, for [actionItems] as for
    [keyPoints] and [topics]. *)
Theorem generateSummary_defaults (content : option string) (summaryContent : JsValue) :
  summaryContentOf JSON_parse content = Normal summaryContent ->
  summaryContent <> JNull ->
  summaryContent <> JUndefined ->
  summaryContentOf JSON_parse None = Normal (JObject [])
  /\ exists r kp tp ai,
       generateSummary JSON_parse (Reply content) = Normal r
       /\ getProp summaryContent "keyPoints" = Normal kp
       /\ getProp summaryContent "topics" = Normal tp
       /\ getProp summaryContent "actionItems" = Normal ai
       /\ keyPoints r = orElse kp (JArray [])
       /\ topics r = orElse tp (JArray [])
       /\ actionItems r = orElse ai (JArray [])
       /\ (kp = JUndefined -> keyPoints r = JArray [])
       /\ (tp = JUndefined -> topics r = JArray [])
       /\ (ai = JUndefined -> actionItems r = JArray []).
Proof.
  intros Hcontent Hnull Hundef. split; [reflexivity|].
  assert (forall k, exists x, getProp summaryContent k = Normal x) as Hget.
  { intros k. destruct summaryContent; try congruence; eexists; reflexivity. }
  destruct (Hget "keyPoints") as [kp Hkp].
  destruct (Hget "topics") as [tp Htp].
  destruct (Hget "actionItems") as [ai Hai].
  exists {| keyPoints := orElse kp (JArray []);
            topics := orElse tp (JArray []);
            actionItems := orElse ai (JArray []) |}, kp, tp, ai.
  repeat split; try assumption; try (intros ->; reflexivity).
  unfold generateSummary. cbn [readContent cbind].
  rewrite Hcontent. cbn [cbind]. rewrite Hkp, Htp, Hai. reflexivity.
Qed.

End WithParser.

Lemma generateSummary_defaults_witness :
  exists r,
    generateSummary JsonText.parse (Reply (Some summaryWithoutActions)) = Normal r
    /\ keyPoints r = JArray [JString "Budget approved"]
    /\ topics r = JArray []
    /\ actionItems r = JArray [].
Proof.
  destruct (generateSummary_defaults JsonText.parse (Some summaryWithoutActions)
              (JObject [("keyPoints", JArray [JString "Budget approved"]);
                        ("topics", JArray [])]))
    as (_ & r & kp & tp & ai & Hr & Hkp & Htp & Hai & Ek & Et & Ea & _).
  - reflexivity.
  - discriminate.
  - discriminate.
  - exists r. split; [exact Hr|].
    injection Hkp as <-. injection Htp as <-. injection Hai as <-.
    repeat split; assumption.
Defined.

End SummaryClaims.

(** ** Transcription *)
Module TranscriptionClaims.
Import MonadM Fs Transcription Samples.

(** C8.  At a path where no file exists, [transcribeAudio] throws an error
    whose message says that the audio file was not found, and the world is
    left as it was: no call to the speech service is recorded, whatever the
    service would have answered. *)
Theorem transcribeAudio_missing_file
    (transcriptionsCreate : string -> gmap string N -> Completion ApiTranscription)
    (audioFilePath : string) (w : World) :
  files w !! audioFilePath = None ->
  transcribeAudio transcriptionsCreate audioFilePath w
  = (w, Throw (newError "Failed to transcribe audio: Audio file not found"))
  /\ JsString.includes "Failed to transcribe audio: Audio file not found"
                       "Audio file not found" = true.
Proof.
  intros Hmissing. split; [|reflexivity].
  unfold transcribeAudio, tryCatch, bind, lift, existsSync.
  rewrite Hmissing. reflexivity.
Qed.

Lemma transcribeAudio_missing_file_witness :
  transcribeAudio speechReplies uploadPath {| files := ∅; calls := [] |}
  = ({| files := ∅; calls := [] |},
     Throw (newError "Failed to transcribe audio: Audio file not found")).
Proof.
  refine (proj1 (transcribeAudio_missing_file speechReplies uploadPath
                   {| files := ∅; calls := [] |} _)).
  reflexivity.
Defined.

(** [transcribeAudio] never touches the files, and records one call to the
    speech service exactly when the file exists. *)
Lemma transcribeAudio_frame
    (transcriptionsCreate : string -> gmap string N -> Completion ApiTranscription)
    (audioFilePath : string) (w : World) :
  files (fst (transcribeAudio transcriptionsCreate audioFilePath w)) = files w.
Proof.
  unfold transcribeAudio, tryCatch, bind, lift, existsSync, callSpeech, throw, ret.
  destruct (files w !! audioFilePath); cbn.
  - destruct (transcriptionsCreate audioFilePath (files w)) as [tr|e]; cbn.
    + reflexivity.
    + destruct (response e) as [[st [data|]]|]; reflexivity.
  - reflexivity.
Qed.

Lemma transcribeAudio_existing
    (transcriptionsCreate : string -> gmap string N -> Completion ApiTranscription)
    (audioFilePath : string) (w : World) (size : N) :
  files w !! audioFilePath = Some size ->
  exists r,
    transcribeAudio transcriptionsCreate audioFilePath w
    = ({| files := files w; calls := calls w ++ [CallSpeech audioFilePath] |}, r)
    /\ match transcriptionsCreate audioFilePath (files w) with
       | Normal tr =>
           r = Normal {| text := api_text tr;
                         duration := durationOrZero (api_duration tr) |}
       | Throw _ => exists msg, r = Throw (newError msg)
       end.
Proof.
  intros Hfile.
  unfold transcribeAudio, tryCatch, bind, lift, existsSync, callSpeech, throw, ret.
  rewrite Hfile. cbn.
  destruct (transcriptionsCreate audioFilePath (files w)) as [tr|e]; cbn.
  - eexists. split; reflexivity.
  - destruct (response e) as [[st [data|]]|]; eexists; split; try reflexivity; eexists; reflexivity.
Qed.

End TranscriptionClaims.

(** ** The compressor and the transcribe endpoint *)
Module RoutesFacts.
Import MonadM Fs Routes.

Section WithRuntime.
Variable path_dirname : string -> string.
Variable path_basename : string -> string.
Variable path_join : string -> string -> string.

Abbreviation outputPathOf := (Routes.outputPathOf path_dirname path_basename path_join).
Abbreviation compressAudioFile :=
  (Routes.compressAudioFile path_dirname path_basename path_join).

(** What [compressAudioFile] does, by the outcome of the encoder call. *)
Lemma compressAudioFile_unfold
    (execAsync : string -> gmap string N -> option JsError * gmap string N)
    (inputPath : string) (w : World) :
  let command := encoderCommand inputPath (outputPathOf inputPath) in
  let outcome := execAsync command (files w) in
  let calls' := calls w ++ [CallEncoder command] in
  compressAudioFile execAsync inputPath w
  = if encoderProduced (outputPathOf inputPath) outcome then
      match snd outcome !! inputPath with
      | Some _ =>
          ({| files := delete inputPath (snd outcome); calls := calls' |},
           Normal (outputPathOf inputPath))
      | None => ({| files := snd outcome; calls := calls' |}, Normal inputPath)
      end
    else ({| files := snd outcome; calls := calls' |}, Normal inputPath).
Proof.
  intros command outcome calls'. subst command outcome calls'.
  unfold Routes.compressAudioFile, runEncoder, encoderProduced, tryCatch, bind, lift,
    existsSync, statSyncSize, unlinkSync, remove, throw, ret.
  destruct (execAsync _ (files w)) as [[e|] after]; cbn; [reflexivity|].
  destruct (after !! outputPathOf inputPath) as [size|] eqn:Hout; cbn;
    rewrite ?Hout; cbn; [|reflexivity].
  destruct (size =? 0)%N; cbn; [reflexivity|].
  destruct (after !! inputPath); reflexivity.
Qed.

(** The error of a failed encoder call is not looked at. *)
Lemma compressAudioFile_replaceFailure
    (execAsync : string -> gmap string N -> option JsError * gmap string N)
    (e' : JsError) (inputPath : string) (w : World) :
  compressAudioFile (replaceFailure e' execAsync) inputPath w
  = compressAudioFile execAsync inputPath w.
Proof.
  rewrite !compressAudioFile_unfold. unfold replaceFailure, encoderProduced.
  destruct (execAsync _ (files w)) as [[e|] after]; reflexivity.
Qed.

(** The compressor returns a path, and records exactly the encoder call. *)
Lemma compressAudioFile_calls
    (execAsync : string -> gmap string N -> option JsError * gmap string N)
    (inputPath : string) (w : World) :
  exists w' returned,
    compressAudioFile execAsync inputPath w = (w', Normal returned)
    /\ calls w'
       = calls w ++ [CallEncoder (encoderCommand inputPath (outputPathOf inputPath))].
Proof.
  rewrite compressAudioFile_unfold.
  destruct (encoderProduced _ _);
    [destruct (snd _ !! inputPath)|]; do 2 eexists; split; reflexivity.
Qed.

End WithRuntime.

End RoutesFacts.

Module RoutesClaims.
Import MonadM Fs Routes Samples.

Section WithRuntime.
Variable path_dirname : string -> string.
Variable path_basename : string -> string.
Variable path_join : string -> string -> string.

Abbreviation outputPathOf := (Routes.outputPathOf path_dirname path_basename path_join).
Abbreviation compressAudioFile :=
  (Routes.compressAudioFile path_dirname path_basename path_join).
Abbreviation transcribeRoute :=
  (Routes.transcribeRoute path_dirname path_basename path_join).

(** C5.  [compressAudioFile] returns normally for every input path, after
    one encoder call.  When that call fails, or leaves no output file or an
    empty one, the input path is returned and the files are as the encoder
    left them (the original is not deleted).  When the call resolves and the
    output file exists and is not empty, the original file is deleted and
    the output path is returned. *)
Theorem compressAudioFile_outcomes
    (execAsync : string -> gmap string N -> option JsError * gmap string N)
    (inputPath : string) (w : World) :
  let outputPath := outputPathOf inputPath in
  let command := encoderCommand inputPath outputPath in
  let failure := fst (execAsync command (files w)) in
  let after := snd (execAsync command (files w)) in
  exists w' returned,
    compressAudioFile execAsync inputPath w = (w', Normal returned)
    /\ calls w' = calls w ++ [CallEncoder command]
    /\ ((is_Some failure \/ after !! outputPath = None \/ after !! outputPath = Some 0%N) ->
        returned = inputPath /\ files w' = after)
    /\ (forall size,
          failure = None -> after !! outputPath = Some size -> size <> 0%N ->
          is_Some (after !! inputPath) ->
          returned = outputPath
          /\ files w' = delete inputPath after
          /\ files w' !! inputPath = None).
Proof.
  intros outputPath command failure after.
  rewrite RoutesFacts.compressAudioFile_unfold.
  fold outputPath. fold command. subst failure after.
  unfold encoderProduced.
  destruct (execAsync command (files w)) as [[e|] after]; cbn [fst snd].
  - do 2 eexists. split; [reflexivity|]. split; [reflexivity|]. split.
    + intros _. split; reflexivity.
    + intros size Hfail. discriminate.
  - destruct (after !! outputPath) as [size|] eqn:Hout.
    + destruct (N.eqb_spec size 0) as [->|Hsize]; cbn [negb].
      * do 2 eexists. split; [reflexivity|]. split; [reflexivity|]. split.
        -- intros _. split; reflexivity.
        -- intros size' _ Hsize' Hne. congruence.
      * destruct (after !! inputPath) as [inputSize|] eqn:Hin.
        -- do 2 eexists. split; [reflexivity|]. split; [reflexivity|]. split.
           ++ intros [[x Hx]|[H|H]]; congruence.
           ++ intros size' _ _ _ _. cbn [files].
              split; [reflexivity|]. split; [reflexivity|].
              apply lookup_delete_eq.
        -- do 2 eexists. split; [reflexivity|]. split; [reflexivity|]. split.
           ++ intros _. split; reflexivity.
           ++ intros size' _ _ _ [x Hx]. discriminate.
    + do 2 eexists. split; [reflexivity|]. split; [reflexivity|]. split.
      * intros _. split; reflexivity.
      * intros size' _ Hsize'. discriminate.
Qed.

Ltac route_unfold :=
  unfold Routes.transcribeRoute, transcribeHandler, transcribeBody, cleanup,
    handleApiError, handleAnyError, onWorld, setAudioPath, setWasCompressed,
    tryCatch, tryFinally, bind, ret, throw, get, modify, lift, when,
    statSyncSize, unlink, existsSync, remove.

Ltac route_step :=
  cbn -[Routes.compressAudioFile Transcription.transcribeAudio maxWhisperFileSize
        N.ltb String.eqb].

(** C10.  For an upload of at most 25MB the encoder is not called: the only
    call recorded is the speech call on the path of the upload, made while
    the files are as they were, and a transcript that is sent back has
    [wasCompressed] false. *)
Theorem small_upload_skips_compression
    (execAsync : string -> gmap string N -> option JsError * gmap string N)
    (transcriptionsCreate :
       string -> gmap string N -> Completion Transcription.ApiTranscription)
    (file : UploadedFile) (w : World) (size : N) :
  files w !! path file = Some size ->
  (size <= maxWhisperFileSize)%N ->
  exists w' r,
    transcribeRoute execAsync transcriptionsCreate (Some file) w = (w', r)
    /\ calls w' = calls w ++ [CallSpeech (path file)]
    /\ files w' = delete (path file) (files w)
    /\ match transcriptionsCreate (path file) (files w) with
       | Normal tr =>
           r = {| status := 200;
                  body := TranscriptBody
                            {| t_text := Transcription.api_text tr;
                               t_duration :=
                                 Transcription.durationOrZero (Transcription.api_duration tr);
                               t_filename := originalname file;
                               t_wasCompressed := Some false |} |}
       | Throw _ => status r = 500%N /\ exists msg, body r = MessageBody msg
       end
    /\ (forall t, body r = TranscriptBody t -> t_wasCompressed t = Some false).
Proof.
  intros Hfile Hsize.
  destruct (TranscriptionClaims.transcribeAudio_existing transcriptionsCreate
              (path file) w size Hfile) as (res & Hrun & Hres).
  route_unfold. route_step. rewrite Hfile. route_step.
  assert ((maxWhisperFileSize <? size)%N = false) as -> by (apply N.ltb_ge; exact Hsize).
  route_step. rewrite Hrun. route_step.
  destruct (transcriptionsCreate (path file) (files w)) as [tr|e].
  - subst res. route_step. rewrite Hfile. route_step.
    do 2 eexists. repeat split. intros t [= <-]. reflexivity.
  - destruct Hres as [msg ->]. route_step. rewrite Hfile. route_step.
    do 2 eexists. repeat split.
    + eexists. reflexivity.
    + intros t [=].
Qed.

(** The outermost handler answers every error: the handler never throws. *)
Lemma transcribeHandler_returns
    (execAsync : string -> gmap string N -> option JsError * gmap string N)
    (transcriptionsCreate :
       string -> gmap string N -> Completion Transcription.ApiTranscription)
    (reqFile : option UploadedFile) (s : Locals) :
  exists r,
    snd (transcribeHandler path_dirname path_basename path_join execAsync
           transcriptionsCreate reqFile s) = Normal r.
Proof.
  unfold transcribeHandler. unfold tryCatch at 1.
  match goal with |- context [match ?x with _ => _ end] => destruct x as [s' [r|e]] end.
  - exists r. reflexivity.
  - eexists. reflexivity.
Qed.

(** The response and the final world do not depend on the error a failed
    encoder call carries. *)
Lemma transcribeRoute_replaceFailure
    (execAsync : string -> gmap string N -> option JsError * gmap string N)
    (transcriptionsCreate :
       string -> gmap string N -> Completion Transcription.ApiTranscription)
    (e' : JsError) (reqFile : option UploadedFile) (w : World) :
  transcribeRoute (replaceFailure e' execAsync) transcriptionsCreate reqFile w
  = transcribeRoute execAsync transcriptionsCreate reqFile w.
Proof.
  destruct reqFile as [file|]; [|reflexivity].
  route_unfold. route_step.
  destruct (files w !! path file) as [size|]; route_step; [|reflexivity].
  destruct (maxWhisperFileSize <? size)%N; route_step; [|reflexivity].
  rewrite RoutesFacts.compressAudioFile_replaceFailure. reflexivity.
Qed.

(** X19.  The variant without compression always removes the upload. *)
Lemma transcribeRouteSimple_removes_upload
    (transcriptionsCreate :
       string -> gmap string N -> Completion Transcription.ApiTranscription)
    (file : UploadedFile) (w : World) :
  files (fst (transcribeRouteSimple transcriptionsCreate (Some file) w)) !! path file
  = None.
Proof.
  unfold transcribeRouteSimple, transcribeHandlerSimple, tryCatch, bind, unlink, remove,
    handleApiError, handleAnyError, ret, throw.
  destruct (Transcription.transcribeAudio transcriptionsCreate (path file) w)
    as [w1 [tr|e]]; cbn.
  - apply lookup_delete_eq.
  - destruct (response e) as [[[st|] data]|]; cbn;
      try destruct (st =? 0)%N; cbn; apply lookup_delete_eq.
Qed.

(** X20.  The variant with compression always removes the upload as well;
    what it can leave behind is a file the encoder wrote. *)
Lemma transcribeRoute_removes_upload
    (execAsync : string -> gmap string N -> option JsError * gmap string N)
    (transcriptionsCreate :
       string -> gmap string N -> Completion Transcription.ApiTranscription)
    (file : UploadedFile) (w : World) :
  files (fst (transcribeRoute execAsync transcriptionsCreate (Some file) w)) !! path file
  = None.
Proof.
  route_unfold. route_step.
  destruct (files w !! path file) as [size|] eqn:Hfile; route_step.
  2:{ rewrite Hfile. route_step. exact Hfile. }
  destruct (maxWhisperFileSize <? size)%N; route_step.
  2:{ pose proof (TranscriptionClaims.transcribeAudio_frame transcriptionsCreate
                    (path file) w) as Hframe.
      destruct (Transcription.transcribeAudio transcriptionsCreate (path file) w)
        as [w2 r].
      cbn [fst] in Hframe. route_step.
      destruct r as [tr|e]; route_step; rewrite Hframe, Hfile; route_step.
      - apply lookup_delete_eq.
      - destruct (response e) as [[[st|] data]|]; route_step;
          try destruct (st =? 0)%N; route_step; apply lookup_delete_eq. }
  rewrite RoutesFacts.compressAudioFile_unfold.
  destruct (execAsync _ (files w)) as [failure after].
  destruct (encoderProduced _ (failure, after)); cbn [snd];
    [destruct (after !! path file) as [inputSize|] eqn:Hin|]; route_step;
    repeat first
      [ progress route_step
      | rewrite lookup_delete_eq
      | reflexivity
      | match goal with
        | H : (?a =? ?b)%string = true |- _ => apply String.eqb_eq in H; rewrite H in *
        | H : ?x = _ |- context [?x] => rewrite H
        | |- context [Transcription.transcribeAudio ?api ?p ?w0] =>
            let Hf := fresh "Hframe" in
            pose proof (TranscriptionClaims.transcribeAudio_frame api p w0) as Hf;
            destruct (Transcription.transcribeAudio api p w0) as [? ?];
            cbn [fst files] in Hf
        | |- context [match ?x with _ => _ end] =>
            lazymatch x with
            | context [match _ with _ => _ end] => fail
            | _ => destruct x eqn:?
            end
        end ].
  all: match goal with
       | H : negb (?a =? ?b)%string && true = false |- _ =>
           rewrite andb_true_r in H; apply negb_false_iff in H;
           apply String.eqb_eq in H; rewrite H in *
       end.
  all: match goal with
       | H : delete ?p _ !! ?p = Some _ |- _ =>
           rewrite lookup_delete_eq in H; discriminate
       end.
Qed.

(** C6.  When the upload exceeds 25MB and the file the compression step
    returns is still larger than 25MB, the response is an error whose
    message says that the file is still too large after compression; the
    only call made is the encoder call, so the speech service is not
    called; and whatever error a failed encoder call carries, the response
    is the same. *)
Theorem still_too_large_after_compression
    (execAsync : string -> gmap string N -> option JsError * gmap string N)
    (transcriptionsCreate :
       string -> gmap string N -> Completion Transcription.ApiTranscription)
    (file : UploadedFile) (w w1 : World) (fileSize newSize : N) (compressed : string) :
  files w !! path file = Some fileSize ->
  (maxWhisperFileSize < fileSize)%N ->
  compressAudioFile execAsync (path file) w = (w1, Normal compressed) ->
  files w1 !! compressed = Some newSize ->
  (maxWhisperFileSize < newSize)%N ->
  exists w',
    transcribeRoute execAsync transcriptionsCreate (Some file) w
    = (w', {| status := 500;
              body := MessageBody
                        ("File still too large after compression ("
                         ++ megabytesFixed2 newSize
                         ++ "MB). Try a shorter audio clip.")%string |})
    /\ calls w'
       = calls w ++ [CallEncoder (encoderCommand (path file) (outputPathOf (path file)))]
    /\ forall e',
         transcribeRoute (replaceFailure e' execAsync) transcriptionsCreate (Some file) w
         = transcribeRoute execAsync transcriptionsCreate (Some file) w.
Proof.
  intros Hfile Hbig Hcomp Hnew Hstill.
  destruct (RoutesFacts.compressAudioFile_calls path_dirname path_basename path_join
              execAsync (path file) w)
    as (w1' & returned & Hrun & Hcalls).
  rewrite Hcomp in Hrun. injection Hrun as <- <-.
  apply N.ltb_lt in Hbig, Hstill.
  assert (exists w',
            transcribeRoute execAsync transcriptionsCreate (Some file) w
            = (w', {| status := 500;
                      body := MessageBody (messageOrDefault (stillTooLarge newSize)) |})
            /\ calls w' = calls w1) as (w' & Hroute & Hcalls').
  { route_unfold. route_step. rewrite Hfile. route_step. rewrite Hbig. route_step.
    rewrite Hcomp. route_step. rewrite Hnew. route_step. rewrite Hstill. route_step.
    rewrite Hnew. route_step.
    destruct (negb (String.eqb compressed (path file))); route_step;
      [destruct (delete compressed (files w1) !! path file); route_step|];
      eexists; split; reflexivity. }
  exists w'. split; [exact Hroute|]. split.
  - rewrite Hcalls'. exact Hcalls.
  - intros e'. apply transcribeRoute_replaceFailure.
Qed.

End WithRuntime.

Lemma compressAudioFile_outcomes_witness :
  exists w',
    Routes.compressAudioFile PosixPath.dirname PosixPath.basename PosixPath.join
      (encoderWrites (megabytes 2)) uploadPath (worldWithUpload (megabytes 30))
    = (w', Normal compressedPath)
    /\ files w' !! uploadPath = None.
Proof.
  destruct (compressAudioFile_outcomes PosixPath.dirname PosixPath.basename
              PosixPath.join (encoderWrites (megabytes 2)) uploadPath
              (worldWithUpload (megabytes 30)))
    as (w' & returned & Hrun & _ & _ & Hok).
  destruct (Hok (megabytes 2)) as (Hret & _ & Hgone).
  - reflexivity.
  - reflexivity.
  - discriminate.
  - exists (megabytes 30). reflexivity.
  - exists w'. rewrite Hrun, Hret. split; [reflexivity | exact Hgone].
Defined.

Lemma still_too_large_after_compression_witness :
  exists w',
    Routes.transcribeRoute PosixPath.dirname PosixPath.basename PosixPath.join
      (encoderWrites (megabytes 26)) speechReplies (Some upload)
      (worldWithUpload (megabytes 30))
    = (w', {| status := 500;
              body := MessageBody
                        "File still too large after compression (26.00MB). Try a shorter audio clip." |}).
Proof.
  edestruct (still_too_large_after_compression PosixPath.dirname PosixPath.basename
               PosixPath.join (encoderWrites (megabytes 26)) speechReplies upload
               (worldWithUpload (megabytes 30)))
    as (w' & Hroute & _).
  - reflexivity.
  - reflexivity.
  - vm_compute. reflexivity.
  - reflexivity.
  - reflexivity.
  - exists w'. exact Hroute.
Defined.

Lemma small_upload_skips_compression_witness :
  exists w',
    Routes.transcribeRoute PosixPath.dirname PosixPath.basename PosixPath.join
      (encoderWrites (megabytes 2)) speechReplies (Some upload)
      (worldWithUpload (megabytes 3))
    = (w', {| status := 200;
              body := TranscriptBody
                        {| t_text := "Hello there.";
                           t_duration := Transcription.zero;
                           t_filename := "meeting.wav";
                           t_wasCompressed := Some false |} |})
    /\ calls w' = [CallSpeech uploadPath].
Proof.
  destruct (small_upload_skips_compression PosixPath.dirname PosixPath.basename
              PosixPath.join (encoderWrites (megabytes 2)) speechReplies upload
              (worldWithUpload (megabytes 3)) (megabytes 3))
    as (w' & r & Hroute & Hcalls & _ & Hr & _).
  - reflexivity.
  - vm_compute. discriminate.
  - exists w'. cbn in Hr. rewrite Hroute, Hr. split; [reflexivity | exact Hcalls].
Defined.

(** C9 (the code departs from the claim).  The claim: after every request no
    scratch file of the request remains.  For a 30MB upload whose encoder
    run fails after writing part of the output, or exits normally leaving
    an empty output file, the compressor hands back the input path; the
    [finally] block then removes the upload only, and the file the encoder
    wrote stays on disk. *)
Theorem encoder_output_left_on_disk :
  Routes.outputPathOf PosixPath.dirname PosixPath.basename PosixPath.join uploadPath
  = compressedPath
  /\ files (fst (Routes.transcribeRoute PosixPath.dirname PosixPath.basename
                   PosixPath.join (encoderFailsLeaving 4096) speechReplies (Some upload)
                   (worldWithUpload (megabytes 30))))
     = {[ compressedPath := 4096%N ]}
  /\ files (fst (Routes.transcribeRoute PosixPath.dirname PosixPath.basename
                   PosixPath.join (encoderWrites 0) speechReplies (Some upload)
                   (worldWithUpload (megabytes 30))))
     = {[ compressedPath := 0%N ]}.
Proof. repeat split; vm_compute; reflexivity. Qed.

End RoutesClaims.

(** * Further properties *)

(** ** The sentence split *)
Module SplitFacts.
Import JsString Js Observe.

Lemma append_nil_r (s : string) : (s ++ EmptyString)%string = s.
Proof.
  induction s as [|c s IH]; [reflexivity|].
  change (String c (s ++ EmptyString)%string = String c s). f_equal. exact IH.
Qed.

Lemma removeWhite_app (a b : string) :
  removeWhite (a ++ b)%string = (removeWhite a ++ removeWhite b)%string.
Proof.
  induction a as [|c a IH]; [reflexivity|].
  change (removeWhite (String c (a ++ b)%string)
          = (removeWhite (String c a) ++ removeWhite b)%string).
  cbn [removeWhite]. destruct (isWhiteSpace c); [exact IH|].
  change (String c (removeWhite (a ++ b)%string)
          = String c (removeWhite a ++ removeWhite b)%string).
  f_equal. exact IH.
Qed.

Lemma removeWhite_list (s : string) :
  list_ascii_of_string (removeWhite s)
  = List.filter (fun c => negb (isWhiteSpace c)) (list_ascii_of_string s).
Proof.
  induction s as [|c s IH]; [reflexivity|].
  cbn [removeWhite list_ascii_of_string List.filter].
  destruct (isWhiteSpace c); cbn [negb list_ascii_of_string]; rewrite ?IH; reflexivity.
Qed.

Lemma removeWhite_rev (s : string) : removeWhite (rev s) = rev (removeWhite s).
Proof.
  rewrite <- (string_of_list_ascii_of_string (removeWhite (rev s))).
  rewrite removeWhite_list. unfold rev.
  rewrite list_ascii_of_string_of_list_ascii.
  rewrite removeWhite_list.
  rewrite List.filter_rev. reflexivity.
Qed.

Lemma rev_empty (s : string) : rev s = EmptyString -> s = EmptyString.
Proof.
  unfold rev. intros H.
  apply (f_equal list_ascii_of_string) in H.
  rewrite list_ascii_of_string_of_list_ascii in H. cbn in H.
  destruct s as [|c s]; [reflexivity|].
  cbn [list_ascii_of_string List.rev] in H.
  destruct (List.rev (list_ascii_of_string s)); discriminate.
Qed.

Lemma removeWhite_trimStart (s : string) : removeWhite (trimStart s) = removeWhite s.
Proof.
  induction s as [|c s IH]; [reflexivity|].
  cbn [trimStart]. destruct (isWhiteSpace c) eqn:Hc.
  - rewrite IH. cbn [removeWhite]. rewrite Hc. reflexivity.
  - reflexivity.
Qed.

Lemma trimStart_empty (s : string) : trimStart s = EmptyString -> removeWhite s = EmptyString.
Proof.
  intros H. rewrite <- removeWhite_trimStart, H. reflexivity.
Qed.

(** A piece the filter drops has only white space. *)
Lemma blank_removeWhite (p : string) : nonBlank p = false -> removeWhite p = EmptyString.
Proof.
  unfold nonBlank, trim. intros H. apply Nat.ltb_ge in H.
  assert (rev (trimStart (rev (trimStart p))) = EmptyString) as Hrev.
  { destruct (rev (trimStart (rev (trimStart p)))); [reflexivity|cbn in H; lia]. }
  apply rev_empty, trimStart_empty in Hrev.
  rewrite removeWhite_rev in Hrev. apply rev_empty in Hrev.
  rewrite removeWhite_trimStart in Hrev. exact Hrev.
Qed.

Lemma splitGo_removeWhite (s : string) :
  forall (skipping prevTerm : bool) (cur : string),
    (skipping = true -> cur = EmptyString) ->
    removeWhite (flatten (splitGo skipping prevTerm cur s))
    = (removeWhite cur ++ removeWhite s)%string.
Proof.
  induction s as [|c s IH]; intros skipping prevTerm cur Hcur.
  - cbn [splitGo flatten removeWhite]. rewrite !append_nil_r. reflexivity.
  - cbn [splitGo]. destruct skipping.
    + rewrite (Hcur eq_refl). destruct (isWhiteSpace c) eqn:Hc.
      * rewrite IH by reflexivity. cbn [removeWhite]. rewrite Hc. reflexivity.
      * rewrite IH by discriminate. cbn [removeWhite]. rewrite Hc. reflexivity.
    + destruct (prevTerm && isWhiteSpace c) eqn:Hsep.
      * apply andb_true_iff in Hsep as [_ Hc].
        cbn [flatten]. rewrite removeWhite_app, IH by reflexivity.
        cbn [removeWhite]. rewrite Hc. reflexivity.
      * rewrite IH by discriminate.
        rewrite removeWhite_app, append_assoc.
        rewrite <- removeWhite_app. reflexivity.
Qed.

Lemma filter_blank_removeWhite (pieces : list string) :
  removeWhite (flatten (List.filter nonBlank pieces)) = removeWhite (flatten pieces).
Proof.
  induction pieces as [|p pieces IH]; [reflexivity|].
  cbn [List.filter flatten]. destruct (nonBlank p) eqn:Hp.
  - cbn [flatten]. rewrite !removeWhite_app, IH. reflexivity.
  - rewrite removeWhite_app, (blank_removeWhite p Hp), IH. reflexivity.
Qed.

(** X1.  The split into sentences loses nothing but white space: the
    sentences put back together have the characters of the text that are
    not white space, in order. *)
Theorem sentences_keep_characters (s : string) :
  removeWhite (flatten (sentences s)) = removeWhite s.
Proof.
  unfold sentences, splitAfterTerminators.
  rewrite filter_blank_removeWhite.
  rewrite splitGo_removeWhite by discriminate. reflexivity.
Qed.

Lemma list_ascii_of_string_app (a b : string) :
  list_ascii_of_string (a ++ b)%string
  = list_ascii_of_string a ++ list_ascii_of_string b.
Proof.
  induction a as [|c a IH]; [reflexivity|].
  change (c :: list_ascii_of_string (a ++ b)%string
          = c :: (list_ascii_of_string a ++ list_ascii_of_string b)).
  f_equal. exact IH.
Qed.

Lemma rev_snoc (x : string) (c : ascii) :
  rev (x ++ String c EmptyString)%string = String c (rev x).
Proof.
  unfold rev. rewrite list_ascii_of_string_app. cbn [list_ascii_of_string].
  rewrite List.rev_app_distr. reflexivity.
Qed.

Lemma isTerminator_chars (c : ascii) :
  isTerminator c = true ->
  Ascii.eqb "." c || Ascii.eqb "?" c || Ascii.eqb "!" c = true.
Proof.
  destruct c as [[] [] [] [] [] [] [] []]; vm_compute; intros H;
    first [reflexivity | discriminate].
Qed.

Lemma terminator_not_white (c : ascii) :
  Ascii.eqb "." c || Ascii.eqb "?" c || Ascii.eqb "!" c = true -> isWhiteSpace c = false.
Proof.
  destruct c as [[] [] [] [] [] [] [] []]; vm_compute; intros H;
    first [reflexivity | discriminate].
Qed.

Lemma endsWithTerminator_rev (p : string) :
  endsWithTerminator p
  = match rev p with
    | String c _ => Ascii.eqb "." c || Ascii.eqb "?" c || Ascii.eqb "!" c
    | EmptyString => false
    end.
Proof.
  unfold endsWithTerminator, endsWith.
  change (rev ".") with "."%string. change (rev "?") with "?"%string.
  change (rev "!") with "!"%string.
  destruct (rev p) as [|c r]; [reflexivity|].
  cbn [startsWith]. rewrite !andb_true_r. reflexivity.
Qed.

Lemma endsWithTerminator_snoc (x : string) (c : ascii) :
  isTerminator c = true -> endsWithTerminator (x ++ String c EmptyString)%string = true.
Proof.
  intros Hc. rewrite endsWithTerminator_rev, rev_snoc.
  apply isTerminator_chars. exact Hc.
Qed.

Lemma endsWithTerminator_nonBlank (p : string) :
  endsWithTerminator p = true -> nonBlank p = true.
Proof.
  intros Hp. destruct (nonBlank p) eqn:Hblank; [reflexivity|].
  apply blank_removeWhite in Hblank.
  rewrite endsWithTerminator_rev in Hp.
  destruct (rev p) as [|c r] eqn:Hrev; [discriminate|].
  apply terminator_not_white in Hp.
  pose proof (removeWhite_rev p) as H.
  rewrite Hrev, Hblank in H. cbn [removeWhite] in H. rewrite Hp in H.
  discriminate.
Qed.

Lemma splitGo_nonempty (s : string) :
  forall skipping prevTerm cur, splitGo skipping prevTerm cur s <> [].
Proof.
  induction s as [|c s IH]; intros skipping prevTerm cur; cbn [splitGo].
  - discriminate.
  - destruct skipping; [destruct (isWhiteSpace c); apply IH|].
    destruct (prevTerm && isWhiteSpace c); [discriminate|apply IH].
Qed.

Lemma splitGo_terminated (s : string) :
  forall (skipping prevTerm : bool) (cur : string),
    (prevTerm = true -> endsWithTerminator cur = true) ->
    List.Forall (fun p => endsWithTerminator p = true)
                (removelast (splitGo skipping prevTerm cur s)).
Proof.
  induction s as [|c s IH]; intros skipping prevTerm cur Hcur; cbn [splitGo].
  - constructor.
  - destruct skipping.
    + destruct (isWhiteSpace c); [apply IH; discriminate|].
      apply IH. intros Hc.
      apply (endsWithTerminator_snoc EmptyString c Hc).
    + destruct (prevTerm && isWhiteSpace c) eqn:Hsep.
      * apply andb_true_iff in Hsep as [Hprev _].
        pose proof (splitGo_nonempty s true false EmptyString) as Hne.
        destruct (splitGo true false EmptyString s) as [|q rest] eqn:Hgo; [congruence|].
        change (removelast (cur :: q :: rest)) with (cur :: removelast (q :: rest)).
        constructor; [apply Hcur, Hprev|].
        rewrite <- Hgo. apply IH. discriminate.
      * apply IH. intros Hc. apply endsWithTerminator_snoc, Hc.
Qed.

Lemma removelast_filter {A} (P : A -> Prop) (f : A -> bool) (l : list A) :
  (forall a, P a -> f a = true) ->
  List.Forall P (removelast l) ->
  List.Forall P (removelast (List.filter f l)).
Proof.
  intros Hf. induction l as [|a l IH]; intros Hall; [constructor|].
  destruct l as [|b l].
  - cbn. destruct (f a); constructor.
  - change (removelast (a :: b :: l)) with (a :: removelast (b :: l)) in Hall.
    inversion Hall as [|? ? Ha Hrest]; subst.
    specialize (IH Hrest).
    change (List.filter f (a :: b :: l))
      with (if f a then a :: List.filter f (b :: l) else List.filter f (b :: l)).
    rewrite (Hf a Ha).
    destruct (List.filter f (b :: l)) as [|q rest]; [constructor|].
    change (removelast (a :: q :: rest)) with (a :: removelast (q :: rest)).
    constructor; assumption.
Qed.

(** X2.  Every sentence the split gives, except possibly the last one, ends
    with [.], [?] or [!]. *)
Theorem sentences_end_with_terminator (s : string) :
  List.Forall (fun p => endsWithTerminator p = true) (removelast (sentences s)).
Proof.
  unfold sentences, splitAfterTerminators.
  apply removelast_filter.
  - apply endsWithTerminator_nonBlank.
  - apply splitGo_terminated. discriminate.
Qed.

End SplitFacts.

(** ** The sentence fallback of the diarizer *)
Module FallbackFacts.
Import JsString Js Chat Diarization Observe Samples.

Lemma join_app (sep : string) (a b : list string) :
  a <> [] -> b <> [] ->
  join sep (a ++ b) = (join sep a ++ sep ++ join sep b)%string.
Proof.
  unfold join. intros Ha Hb.
  induction a as [|x a IH]; [congruence|].
  destruct a as [|y a].
  - destruct b as [|z b]; [congruence|]. reflexivity.
  - change (String.concat sep ((x :: y :: a) ++ b))
      with (x ++ sep ++ String.concat sep ((y :: a) ++ b))%string.
    rewrite IH by discriminate.
    change (String.concat sep (x :: y :: a))
      with (x ++ sep ++ String.concat sep (y :: a))%string.
    rewrite !append_assoc. reflexivity.
Qed.

Lemma cut_nonempty (rest : list string) :
  forall prev, List.Forall (fun r => r <> []) (snd (TurnTaking.cut prev rest)).
Proof.
  induction rest as [|s rest IH]; intros prev; cbn [TurnTaking.cut].
  - constructor.
  - specialize (IH s). destruct (TurnTaking.cut s rest) as [r later].
    cbn [snd] in IH. destruct (TurnTaking.signal prev s); cbn [snd].
    + constructor; [discriminate|exact IH].
    + exact IH.
Qed.

Lemma runs_nonempty (l : list string) :
  List.Forall (fun r => r <> []) (TurnTaking.runs l).
Proof.
  destruct l as [|first rest]; [constructor|].
  unfold TurnTaking.runs. pose proof (cut_nonempty rest first) as H.
  destruct (TurnTaking.cut first rest) as [r later]. cbn [snd] in H.
  constructor; [discriminate|exact H].
Qed.

Lemma join_runs (rs : list (list string)) :
  List.Forall (fun r => r <> []) rs ->
  join " " (List.map (join " ") rs) = join " " (concat rs).
Proof.
  induction rs as [|r rs IH]; intros Hall; [reflexivity|].
  inversion Hall as [|? ? Hr Hrest]; subst.
  destruct rs as [|r2 rs].
  - cbn [List.map concat]. rewrite app_nil_r. reflexivity.
  - change (join " " (List.map (join " ") (r :: r2 :: rs)))
      with (join " " r ++ " " ++ join " " (List.map (join " ") (r2 :: rs)))%string.
    rewrite (IH Hrest).
    change (concat (r :: r2 :: rs)) with (r ++ concat (r2 :: rs)).
    rewrite join_app; [reflexivity|exact Hr|].
    inversion Hrest as [|? ? Hr2 _]; subst.
    cbn [concat]. destruct r2; [congruence|discriminate].
Qed.

Lemma label_texts (rs : list (list string)) :
  forall first,
    List.map segmentText (TurnTaking.label first rs) = List.map (join " ") rs.
Proof.
  induction rs as [|r rs IH]; intros first; [reflexivity|].
  cbn [TurnTaking.label List.map]. rewrite IH. reflexivity.
Qed.

Lemma label_speakers (rs : list (list string)) :
  forall first,
    List.map segmentSpeaker (TurnTaking.label first rs)
    = alternating first (List.length rs).
Proof.
  induction rs as [|r rs IH]; intros first; [reflexivity|].
  cbn [TurnTaking.label List.map List.length alternating]. rewrite IH.
  destruct first; reflexivity.
Qed.

Lemma label_length (rs : list (list string)) :
  forall first, List.length (TurnTaking.label first rs) = List.length rs.
Proof.
  induction rs as [|r rs IH]; intros first; [reflexivity|].
  cbn [TurnTaking.label List.length]. rewrite IH. reflexivity.
Qed.

Lemma cut_length (rest : list string) :
  forall prev,
    List.length (snd (TurnTaking.cut prev rest)) = signalsFired prev rest
    /\ signalsFired prev rest <= List.length rest.
Proof.
  induction rest as [|s rest IH]; intros prev; cbn [TurnTaking.cut signalsFired].
  - split; [reflexivity|cbn; lia].
  - specialize (IH s). destruct IH as [IH Hle].
    rewrite <- DiarizationFacts.signal_speakerChange.
    destruct (TurnTaking.cut s rest) as [r later]. cbn [snd] in IH.
    destruct (TurnTaking.signal prev s); cbn [snd List.length]; lia.
Qed.

Lemma runs_length (l : list string) :
  List.length (TurnTaking.runs l) = turnsIn l
  /\ turnsIn l <= List.length l.
Proof.
  destruct l as [|first rest]; [split; [reflexivity|cbn; lia]|].
  unfold TurnTaking.runs, turnsIn.
  pose proof (cut_length rest first) as [H Hle].
  destruct (TurnTaking.cut first rest) as [r later]. cbn [snd] in H.
  cbn [List.length]. lia.
Qed.

Section WithParser.
Variable JSON_parse : string -> Completion JsValue.

(** The answer to a reply that is not JSON, over more than two sentences. *)
Lemma identifySpeakers_fallback_runs
    (transcriptText content : string) (e : JsError) :
  content <> EmptyString ->
  JSON_parse content = Throw e ->
  2 < List.length (sentences transcriptText) ->
  identifySpeakers JSON_parse transcriptText (Reply (Some content))
  = Normal (TurnTaking.segments (sentences transcriptText)).
Proof.
  intros Hne Hparse Hlen.
  rewrite (DiarizationFacts.identifySpeakers_unparsable _ _ _ e Hne Hparse).
  unfold sentenceFallback.
  assert (Nat.leb (List.length (sentences transcriptText)) 2 = false) as ->
    by (apply Nat.leb_gt; lia).
  destruct (sentences transcriptText) as [|first rest]; [simpl in Hlen; lia|].
  rewrite DiarizationFacts.walk_segments. reflexivity.
Qed.

(** X3.  When the reply is not JSON and the transcript has more than two
    sentences, the texts of the returned segments, joined by single spaces,
    are the sentences joined by single spaces: the fallback keeps every
    sentence, in order. *)
Theorem fallback_keeps_sentences
    (transcriptText content : string) (e : JsError) :
  content <> EmptyString ->
  JSON_parse content = Throw e ->
  2 < List.length (sentences transcriptText) ->
  exists segments,
    identifySpeakers JSON_parse transcriptText (Reply (Some content)) = Normal segments
    /\ join " " (List.map segmentText segments) = join " " (sentences transcriptText).
Proof.
  intros Hne Hparse Hlen. eexists. split.
  - apply (identifySpeakers_fallback_runs _ _ e Hne Hparse Hlen).
  - unfold TurnTaking.segments. rewrite label_texts.
    rewrite join_runs by apply runs_nonempty.
    rewrite DiarizationFacts.runs_concat. reflexivity.
Qed.

(** X4.  In the same case the speakers of the returned segments alternate,
    starting with "Speaker 1"; there is one segment more than signals fired
    between neighbouring sentences, and never more segments than sentences. *)
Theorem fallback_speakers_alternate
    (transcriptText content : string) (e : JsError) :
  content <> EmptyString ->
  JSON_parse content = Throw e ->
  2 < List.length (sentences transcriptText) ->
  exists segments,
    identifySpeakers JSON_parse transcriptText (Reply (Some content)) = Normal segments
    /\ List.map segmentSpeaker segments = alternating true (List.length segments)
    /\ List.length segments = turnsIn (sentences transcriptText)
    /\ List.length segments <= List.length (sentences transcriptText).
Proof.
  intros Hne Hparse Hlen. eexists. split.
  - apply (identifySpeakers_fallback_runs _ _ e Hne Hparse Hlen).
  - unfold TurnTaking.segments. rewrite label_speakers, label_length.
    pose proof (runs_length (sentences transcriptText)) as [H Hle].
    rewrite H. repeat split. exact Hle.
Qed.

End WithParser.

Lemma fallback_keeps_sentences_witness :
  exists segments,
    identifySpeakers JsonText.parse longTranscript (Reply (Some garbageReply))
    = Normal segments
    /\ join " " (List.map segmentText segments)
       = "How are you? Fine. And you? well, I am busy. Bye.".
Proof.
  refine (fallback_keeps_sentences JsonText.parse longTranscript garbageReply
            JsonText.syntaxError _ _ _).
  - discriminate.
  - reflexivity.
  - vm_compute. lia.
Defined.

Lemma fallback_speakers_alternate_witness :
  exists segments,
    identifySpeakers JsonText.parse longTranscript (Reply (Some garbageReply))
    = Normal segments
    /\ List.map segmentSpeaker segments = alternating true (List.length segments)
    /\ List.length segments = 3
    /\ List.length segments <= 5.
Proof.
  refine (fallback_speakers_alternate JsonText.parse longTranscript garbageReply
            JsonText.syntaxError _ _ _).
  - discriminate.
  - reflexivity.
  - vm_compute. lia.
Defined.

End FallbackFacts.

(** ** Recovery of a parsed reply by the diarizer *)
Module RecoveryFacts.
Import JsString Js Chat Diarization Observe Samples.

Lemma substring_empty (n m : nat) : String.substring n m EmptyString = EmptyString.
Proof. destruct n, m; reflexivity. Qed.

Lemma dropChars_empty (n : nat) : dropChars n EmptyString = EmptyString.
Proof. destruct n; reflexivity. Qed.

Lemma substring2_cons (c : ascii) (s : string) (a b : nat) :
  substring2 (String c s) (S a) (S b) = substring2 s a b.
Proof.
  unfold substring2. cbn [String.length].
  rewrite <- !Nat.succ_min_distr, <- Nat.succ_max_distr.
  rewrite Nat.sub_succ. reflexivity.
Qed.

Lemma substring2_zero (c : ascii) (s : string) (b : nat) :
  substring2 (String c s) 0 (S b) = String c (substring2 s 0 b).
Proof.
  unfold substring2. cbn [String.length].
  rewrite <- Nat.succ_min_distr. cbn [Nat.min Nat.max].
  rewrite !Nat.sub_0_r. reflexivity.
Qed.

(** A prefix and what follows it make the whole string. *)
Lemma prefix_drop (s : string) :
  forall k, (substring2 s 0 k ++ dropChars k s)%string = s.
Proof.
  induction s as [|c s IH]; intros k.
  - unfold substring2. rewrite substring_empty, dropChars_empty. reflexivity.
  - destruct k as [|k]; [reflexivity|].
    rewrite substring2_zero. cbn [dropChars].
    change (String c (substring2 s 0 k ++ dropChars k s)%string = String c s).
    f_equal. apply IH.
Qed.

Lemma middle_drop (s : string) :
  forall a b, a <= b -> (substring2 s a b ++ dropChars b s)%string = dropChars a s.
Proof.
  induction s as [|c s IH]; intros a b Hab.
  - unfold substring2. rewrite substring_empty, !dropChars_empty. reflexivity.
  - destruct a as [|a].
    + apply prefix_drop.
    + destruct b as [|b]; [lia|].
      rewrite substring2_cons. cbn [dropChars]. apply IH. lia.
Qed.

Lemma three_pieces (s : string) (a b : nat) :
  a <= b ->
  (substring2 s 0 a ++ substring2 s a b ++ dropChars b s)%string = s.
Proof.
  intros Hab. rewrite (middle_drop s a b Hab). apply prefix_drop.
Qed.

Lemma indexOfAux_ge (pat s : string) :
  forall i j, indexOfAux pat s i = Some j -> i <= j.
Proof.
  induction s as [|c s IH]; intros i j; cbn [indexOfAux].
  - destruct (startsWith pat EmptyString); [intros [= <-]; lia|discriminate].
  - destruct (startsWith pat (String c s)); [intros [= <-]; lia|].
    intros H. apply IH in H. lia.
Qed.

Lemma boundariesGo_sorted (s : string) :
  forall prevTerm i,
    StronglySorted lt (boundariesGo prevTerm i s)
    /\ List.Forall (fun j => i <= j) (boundariesGo prevTerm i s).
Proof.
  induction s as [|c s IH]; intros prevTerm i; cbn [boundariesGo].
  - split; constructor.
  - destruct (IH (isTerminator c) (S i)) as [Hsorted Hall].
    assert (List.Forall (fun j => i <= j) (boundariesGo (isTerminator c) (S i) s)) as Hall'.
    { eapply List.Forall_impl; [|exact Hall]. cbn. intros j Hj. lia. }
    destruct (prevTerm && isWhiteSpace c && upperAfterSpace s); cbn [app].
    + split.
      * constructor; [exact Hsorted|].
        eapply List.Forall_impl; [|exact Hall]. cbn. intros j Hj. lia.
      * constructor; [lia|exact Hall'].
    + split; assumption.
Qed.

Lemma sorted_nth (l : list nat) :
  StronglySorted lt l ->
  forall i j, i <= j -> j < List.length l -> nth i l 0 <= nth j l 0.
Proof.
  induction 1 as [|x l Hsorted IH Hall]; intros i j Hij Hj.
  - cbn in Hj. lia.
  - destruct j as [|j].
    + assert (i = 0) as -> by lia. lia.
    + destruct i as [|i].
      * cbn [nth]. cbn [List.length] in Hj.
        assert (x < nth j l 0); [|lia].
        rewrite List.Forall_forall in Hall. apply Hall. apply nth_In. lia.
      * cbn [nth]. apply IH; [lia|]. cbn [List.length] in Hj. lia.
Qed.

(** The second speaker of line 152. *)
Lemma second_speaker_cases (firstSpeaker : JsValue) :
  (firstSpeaker = JString "Interviewer"
   /\ match firstSpeaker with
      | JString "Interviewer" => JString "Interviewee"
      | _ => JString "Speaker 2"
      end = JString "Interviewee")
  \/ (firstSpeaker <> JString "Interviewer"
      /\ match firstSpeaker with
         | JString "Interviewer" => JString "Interviewee"
         | _ => JString "Speaker 2"
         end = JString "Speaker 2").
Proof.
  destruct firstSpeaker as [| |b|x|s|elems|props];
    try (right; split; [discriminate|reflexivity]).
  repeat match goal with
         | |- context [match ?x with _ => _ end] =>
             is_var x; destruct x;
             try (right; split; [discriminate|reflexivity])
         end.
  left. split; reflexivity.
Qed.

Section WithParser.
Variable JSON_parse : string -> Completion JsValue.

(** X5.  When the reply is the literal [null], or an array of one element
    that has no string [text], the TypeError raised while reading it is
    caught like a parse error: the answer is the sentence fallback over the
    transcript, and the reply is ignored. *)
Theorem reply_without_text_uses_fallback
    (transcriptText content : string) (result : JsValue) :
  content <> EmptyString ->
  JSON_parse content = Normal result ->
  (result = JNull
   \/ exists only,
        result = JArray [only] /\ forall s, getProp only "text" <> Normal (JString s)) ->
  identifySpeakers JSON_parse transcriptText (Reply (Some content))
  = Normal (sentenceFallback transcriptText).
Proof.
  intros Hne Hparse Hshape.
  rewrite (DiarizationFacts.identifySpeakers_parsed _ _ _ _ Hne Hparse).
  destruct Hshape as [-> | (only & -> & Htext)]; [reflexivity|].
  cbn [recover recoverArray].
  destruct (getProp only "text") as [text|e]; cbn [cbind]; [|reflexivity].
  destruct text; try reflexivity.
  exfalso. eapply Htext. reflexivity.
Qed.

(** X6.  A reply that is a number, a string or a boolean, or an object
    with no [segments] or [speakers] array and no entry that looks like a
    speaker, is answered from the transcript alone: two segments, "Speaker
    1" and "Speaker 2", cut at a position between the middle of the
    transcript and 202 characters after it; before trimming, the two parts
    are the whole transcript. *)
Theorem unrecognised_reply_split_near_middle
    (transcriptText content : string) (result : JsValue) :
  content <> EmptyString ->
  JSON_parse content = Normal result ->
  (isScalar result = true
   \/ exists props,
        result = JObject props
        /\ (forall l, lookupProp props "segments" <> JArray l)
        /\ (forall l, lookupProp props "speakers" <> JArray l)
        /\ omap (entrySegment props) props = []) ->
  exists k,
    String.length transcriptText / 2 <= k <= String.length transcriptText / 2 + 202
    /\ identifySpeakers JSON_parse transcriptText (Reply (Some content))
       = Normal [ segment "Speaker 1" (trim (substring2 transcriptText 0 k));
                  segment "Speaker 2" (trim (dropChars k transcriptText)) ]
    /\ (substring2 transcriptText 0 k ++ dropChars k transcriptText)%string
       = transcriptText.
Proof.
  intros Hne Hparse Hshape.
  assert (recover transcriptText result = Normal (splitAtMidpoint transcriptText))
    as Hrecover.
  { destruct Hshape as [Hscalar | (props & -> & Hseg & Hsp & Hent)].
    - destruct result; try discriminate; reflexivity.
    - cbn [recover]. unfold recoverOther. cbn [getProp cbind].
      destruct (lookupProp props "segments") eqn:E1;
        try (exfalso; eapply Hseg; reflexivity);
        destruct (lookupProp props "speakers") eqn:E2;
        try (exfalso; eapply Hsp; reflexivity);
        rewrite Hent; reflexivity. }
  rewrite (DiarizationFacts.identifySpeakers_parsed _ _ _ _ Hne Hparse).
  rewrite Hrecover. cbn [try_catch]. unfold splitAtMidpoint.
  set (midPoint := String.length transcriptText / 2).
  assert (midPoint <= String.length transcriptText) as Hmid.
  { subst midPoint. pose proof (Nat.div_mod_eq (String.length transcriptText) 2). lia. }
  match goal with
  | |- context [segment "Speaker 1" (trim (substring2 transcriptText 0 ?k))] =>
      exists k; assert (midPoint <= k <= midPoint + 202) as Hk
  end.
  { destruct (indexOf transcriptText ". " midPoint) as [i|] eqn:Hidx; [|lia].
    destruct (Nat.ltb (midPoint + 200) i) eqn:Hfar; [lia|].
    apply Nat.ltb_ge in Hfar. unfold indexOf in Hidx.
    apply indexOfAux_ge in Hidx. lia. }
  split; [exact Hk|]. split; [reflexivity|]. apply prefix_drop.
Qed.

(** X7.  An object reply whose only speaker-like entry holds a text longer
    than 200 characters with at least one sentence boundary is cut in
    three: the first and third segments carry the speaker of the entry (or
    "Speaker 1" when it is falsy); the second carries "Interviewee" when
    that first speaker is "Interviewer", and "Speaker 2" in every other
    case, so all three carry the same speaker exactly when the first
    speaker is "Speaker 2"; before trimming, the three parts are the whole
    text. *)
Theorem lone_long_segment_split_in_three
    (transcriptText content : string) (props : list (string * JsValue))
    (speaker : JsValue) (text : string) :
  content <> EmptyString ->
  JSON_parse content = Normal (JObject props) ->
  (forall l, lookupProp props "segments" <> JArray l) ->
  (forall l, lookupProp props "speakers" <> JArray l) ->
  omap (entrySegment props) props = [(speaker, JString text)] ->
  200 < String.length text ->
  sentenceBoundaries text <> [] ->
  exists (second : JsValue) (p1 p2 p3 : string),
    let first := orElse speaker (JString "Speaker 1") in
    identifySpeakers JSON_parse transcriptText (Reply (Some content))
    = Normal [ segmentOf first (JString (trim p1));
               segmentOf second (JString (trim p2));
               segmentOf first (JString (trim p3)) ]
    /\ (p1 ++ p2 ++ p3)%string = text
    /\ ((first = JString "Interviewer" /\ second = JString "Interviewee")
        \/ (first <> JString "Interviewer" /\ second = JString "Speaker 2"))
    /\ (second = first <-> first = JString "Speaker 2").
Proof.
  intros Hne Hparse Hseg Hsp Hent Hlong Hbounds.
  rewrite (DiarizationFacts.identifySpeakers_parsed _ _ _ _ Hne Hparse).
  assert (recover transcriptText (JObject props)
          = Normal (splitInThree speaker text (sentenceBoundaries text))) as ->.
  { cbn [recover]. unfold recoverOther. cbn [getProp cbind].
    destruct (lookupProp props "segments") eqn:E1;
      try (exfalso; eapply Hseg; reflexivity);
      destruct (lookupProp props "speakers") eqn:E2;
      try (exfalso; eapply Hsp; reflexivity);
      rewrite Hent; unfold recoverEntries;
      apply Nat.ltb_lt in Hlong; rewrite Hlong;
      (assert (Nat.ltb 0 (List.length (sentenceBoundaries text)) = true) as ->
         by (apply Nat.ltb_lt; destruct (sentenceBoundaries text);
             [congruence | cbn; lia]));
      reflexivity. }
  cbn [try_catch]. unfold splitInThree.
  set (n := List.length (sentenceBoundaries text)).
  assert (0 < n) as Hn.
  { subst n. destruct (sentenceBoundaries text); [congruence | cbn; lia]. }
  assert (n / 3 < n) as H3 by (apply Nat.div_lt; lia).
  assert (n * 2 / 3 < n) as H23 by (apply Nat.Div0.div_lt_upper_bound; lia).
  assert (n / 3 <= n * 2 / 3) as Hle by (apply Nat.Div0.div_le_mono; lia).
  apply Nat.ltb_lt in H3 as H3b. apply Nat.ltb_lt in H23 as H23b.
  rewrite H3b, H23b.
  set (firstBreakPoint := nth (n / 3) (sentenceBoundaries text) 0).
  set (secondBreakPoint := nth (n * 2 / 3) (sentenceBoundaries text) 0).
  assert (firstBreakPoint <= secondBreakPoint) as Hbreak.
  { apply sorted_nth; [|exact Hle|exact H23].
    apply (boundariesGo_sorted text false 0). }
  destruct (second_speaker_cases (orElse speaker (JString "Speaker 1")))
    as [[Hfirst Hsecond] | [Hfirst Hsecond]];
    eexists; exists (substring2 text 0 (firstBreakPoint + 1)),
      (substring2 text (firstBreakPoint + 1) (secondBreakPoint + 1)),
      (dropChars (secondBreakPoint + 1) text);
    cbv zeta; rewrite Hsecond;
    (split; [reflexivity|]); (split; [apply three_pieces; lia|]).
  - split; [left; split; [exact Hfirst|reflexivity]|].
    rewrite Hfirst. split; discriminate.
  - split; [right; split; [exact Hfirst|reflexivity]|].
    split; intros H; congruence.
Qed.

(** X8.  An array reply with no element or with two or more is returned as
    it is, whatever its elements are. *)
Theorem array_reply_passes_through
    (transcriptText content : string) (elems : list JsValue) :
  content <> EmptyString ->
  JSON_parse content = Normal (JArray elems) ->
  List.length elems <> 1 ->
  identifySpeakers JSON_parse transcriptText (Reply (Some content)) = Normal elems.
Proof.
  intros Hne Hparse Hlen.
  rewrite (DiarizationFacts.identifySpeakers_parsed _ _ _ _ Hne Hparse).
  destruct elems as [|a [|b elems]]; [reflexivity|cbn in Hlen; lia|reflexivity].
Qed.

End WithParser.

Lemma reply_without_text_uses_fallback_witness :
  identifySpeakers JsonText.parse longTranscript (Reply (Some "[null]"))
  = Normal [ segment "Speaker 1" "How are you?";
             segment "Speaker 2" "Fine. And you?";
             segment "Speaker 1" "well, I am busy. Bye." ].
Proof.
  refine (reply_without_text_uses_fallback JsonText.parse longTranscript "[null]"
            (JArray [JNull]) _ _ _).
  - discriminate.
  - reflexivity.
  - right. exists JNull. split; [reflexivity|]. intros s. discriminate.
Defined.

Lemma unrecognised_reply_split_near_middle_witness :
  exists k,
    String.length longTranscript / 2 <= k <= String.length longTranscript / 2 + 202
    /\ identifySpeakers JsonText.parse longTranscript (Reply (Some "{}"))
       = Normal [ segment "Speaker 1" (trim (substring2 longTranscript 0 k));
                  segment "Speaker 2" (trim (dropChars k longTranscript)) ]
    /\ (substring2 longTranscript 0 k ++ dropChars k longTranscript)%string
       = longTranscript.
Proof.
  refine (unrecognised_reply_split_near_middle JsonText.parse longTranscript "{}"
            (JObject []) _ _ _).
  - discriminate.
  - reflexivity.
  - right. exists []. repeat split; intros l; discriminate.
Defined.

Lemma lone_long_segment_split_in_three_witness :
  exists (p1 p2 p3 : string),
    identifySpeakers JsonText.parse shortTranscript (Reply (Some interviewerReply))
    = Normal [ segmentOf (JString "Interviewer") (JString (trim p1));
               segmentOf (JString "Interviewee") (JString (trim p2));
               segmentOf (JString "Interviewer") (JString (trim p3)) ]
    /\ (p1 ++ p2 ++ p3)%string = monologue.
Proof.
  destruct (lone_long_segment_split_in_three JsonText.parse shortTranscript
              interviewerReply
              [("speaker", JString "Interviewer"); ("text", JString monologue)]
              (JString "Interviewer") monologue)
    as (second & p1 & p2 & p3 & Hrun & Hparts & Hrule & _).
  - discriminate.
  - vm_compute. reflexivity.
  - intros l. discriminate.
  - intros l. discriminate.
  - reflexivity.
  - vm_compute. lia.
  - vm_compute. discriminate.
  - exists p1, p2, p3. split; [|exact Hparts].
    destruct Hrule as [[_ ->] | [Hother _]].
    + exact Hrun.
    + exfalso. apply Hother. reflexivity.
Defined.

Lemma array_reply_passes_through_witness :
  identifySpeakers JsonText.parse shortTranscript (Reply (Some "[true, null]"))
  = Normal [JBool true; JNull].
Proof.
  refine (array_reply_passes_through JsonText.parse shortTranscript "[true, null]"
            [JBool true; JNull] _ _ _).
  - discriminate.
  - reflexivity.
  - cbn. lia.
Defined.

End RecoveryFacts.

(** ** Failures of the summarizer and of the transcription client *)
Module FailureFacts.
Import MonadM Fs Js Chat Samples.

Lemma default_message_nonempty (m fallback : string) :
  fallback <> EmptyString ->
  (if String.eqb m EmptyString then fallback else m) <> EmptyString.
Proof.
  intros Hf. destruct (String.eqb_spec m EmptyString); assumption.
Qed.

(** X9.  The summarizer returns exactly when the content it reads (the
    parsed reply, or the empty object for an absent reply) is there and is
    not [null]; every other case (a call that raises, a reply that is not
    JSON, the reply [null]) makes it throw, and the error it throws is a
    fresh one with a message that is not empty and no [response]; for a
    reply that is not JSON the message is the one of the parse error. *)
Theorem generateSummary_fails_exactly
    (JSON_parse : string -> Completion JsValue) (up : Upstream) :
  ((exists r, Summary.generateSummary JSON_parse up = Normal r)
   <-> exists content v,
         up = Reply content
         /\ Summary.summaryContentOf JSON_parse content = Normal v
         /\ v <> JNull /\ v <> JUndefined)
  /\ (forall e,
        Summary.generateSummary JSON_parse up = Throw e ->
        response e = None /\ message e <> EmptyString)
  /\ (forall content parseError,
        up = Reply (Some content) ->
        content <> EmptyString ->
        JSON_parse content = Throw parseError ->
        message parseError <> EmptyString ->
        Summary.generateSummary JSON_parse up = Throw (newError (message parseError))).
Proof.
  split; [|split].
  - split.
    + intros [r Hr]. destruct up as [e| |content]; try discriminate.
      unfold Summary.generateSummary in Hr. cbn [readContent cbind] in Hr.
      destruct (Summary.summaryContentOf JSON_parse content) as [v|e] eqn:Hc;
        [|discriminate].
      exists content, v. split; [reflexivity|]. split; [exact Hc|].
      cbn [cbind] in Hr. split; intros ->; discriminate.
    + intros (content & v & -> & Hc & Hnull & Hundef).
      unfold Summary.generateSummary. cbn [readContent cbind]. rewrite Hc.
      destruct v; try congruence; eexists; reflexivity.
  - intros e He. unfold Summary.generateSummary in He.
    match type of He with
    | try_catch ?body _ = _ => destruct body as [r|cause]
    end; [discriminate|].
    cbn [try_catch] in He. injection He as <-. split; [reflexivity|].
    apply default_message_nonempty. discriminate.
  - intros content parseError -> Hne Hparse Hmsg.
    unfold Summary.generateSummary, Summary.summaryContentOf.
    cbn [readContent cbind].
    destruct content as [|c content]; [congruence|].
    rewrite Hparse. cbn [cbind try_catch].
    destruct (String.eqb_spec (message parseError) EmptyString); [congruence|reflexivity].
Qed.

(** What [transcribeAudio] can give: the files are untouched, and an error
    it throws is a fresh one ([new Error(...)]), without [response]. *)
Lemma transcribeAudio_shape
    (transcriptionsCreate :
       string -> gmap string N -> Completion Transcription.ApiTranscription)
    (audioFilePath : string) (w : World) :
  exists w' r,
    Transcription.transcribeAudio transcriptionsCreate audioFilePath w = (w', r)
    /\ files w' = files w
    /\ ((exists res, r = Normal res) \/ (exists msg, r = Throw (newError msg))).
Proof.
  unfold Transcription.transcribeAudio, tryCatch, bind, lift, existsSync,
    Transcription.callSpeech, throw, ret.
  destruct (files w !! audioFilePath); cbn.
  - destruct (transcriptionsCreate audioFilePath (files w)) as [tr|e]; cbn.
    + do 2 eexists. split; [reflexivity|]. split; [reflexivity|]. left. eexists. reflexivity.
    + destruct (response e) as [[st [data|]]|]; do 2 eexists;
        (split; [reflexivity|]); (split; [reflexivity|]); right; eexists; reflexivity.
  - do 2 eexists. split; [reflexivity|]. split; [reflexivity|]. right. eexists. reflexivity.
Qed.

(** X10.  When the file exists and the speech service fails, one call to
    the service is recorded and [transcribeAudio] throws a fresh error: its
    message is the one the service sent in [response.data] ("OpenAI API
    error" when that has none), or else "Failed to transcribe audio: "
    followed by the message of the failure; it is never empty, and the
    [response] of the failure, with its status, is not passed on. *)
Theorem transcribeAudio_service_failure
    (transcriptionsCreate :
       string -> gmap string N -> Completion Transcription.ApiTranscription)
    (audioFilePath : string) (w : World) (size : N) (e : JsError) :
  files w !! audioFilePath = Some size ->
  transcriptionsCreate audioFilePath (files w) = Throw e ->
  exists thrown,
    Transcription.transcribeAudio transcriptionsCreate audioFilePath w
    = ({| files := files w; calls := calls w ++ [CallSpeech audioFilePath] |},
       Throw thrown)
    /\ response thrown = None
    /\ message thrown <> EmptyString
    /\ message thrown
       = match response e with
         | Some {| resp_data := Some (Some m) |} =>
             if String.eqb m EmptyString then "OpenAI API error" else m
         | Some {| resp_data := Some None |} => "OpenAI API error"
         | _ => ("Failed to transcribe audio: " ++ message e)%string
         end.
Proof.
  intros Hfile Hfail.
  unfold Transcription.transcribeAudio, tryCatch, bind, lift, existsSync,
    Transcription.callSpeech, throw, ret.
  rewrite Hfile. cbn. rewrite Hfail. cbn.
  destruct (response e) as [[st [[m|]|]]|]; cbn;
    eexists; (split; [reflexivity|]); (split; [reflexivity|]); cbn [message newError].
  - split; [|destruct m; reflexivity].
    destruct m; discriminate.
  - split; [discriminate|reflexivity].
  - split; [discriminate|reflexivity].
  - split; [discriminate|reflexivity].
Qed.

Lemma transcribeAudio_service_failure_witness :
  exists thrown,
    Transcription.transcribeAudio speechRateLimited uploadPath
      (worldWithUpload (megabytes 3))
    = ({| files := {[ uploadPath := megabytes 3 ]}; calls := [CallSpeech uploadPath] |},
       Throw thrown)
    /\ response thrown = None
    /\ message thrown <> EmptyString
    /\ message thrown = "Rate limit reached".
Proof.
  refine (transcribeAudio_service_failure speechRateLimited uploadPath
            (worldWithUpload (megabytes 3)) (megabytes 3) rateLimited _ _).
  - reflexivity.
  - reflexivity.
Defined.

End FailureFacts.

(** ** More on the compressor and the transcribe endpoint *)
Module EndpointFacts.
Import MonadM Fs Routes Samples.

Ltac endpoint_unfold :=
  unfold Routes.transcribeRoute, transcribeHandler, transcribeBody, cleanup,
    Routes.transcribeRouteSimple, transcribeHandlerSimple,
    handleApiError, handleAnyError, onWorld, setAudioPath, setWasCompressed,
    tryCatch, tryFinally, bind, ret, throw, get, modify, lift, when,
    statSyncSize, unlink, existsSync, remove.

Ltac endpoint_step :=
  cbn -[Routes.compressAudioFile Transcription.transcribeAudio maxWhisperFileSize
        N.ltb String.eqb messageOrDefault].

(** Case analysis on the innermost scrutinee, and on a transcription. *)
Ltac endpoint_cases :=
  repeat first
    [ progress endpoint_step
    | match goal with
      | H : ?x = _ |- context [?x] => rewrite H
      | |- context [Transcription.transcribeAudio ?api ?p ?w0] =>
          let Hrun := fresh "Hrun" in
          let Hfiles := fresh "Hfiles" in
          destruct (FailureFacts.transcribeAudio_shape api p w0)
            as (? & ? & Hrun & Hfiles & [[? ->] | [? ->]]);
          rewrite Hrun; cbn [files] in Hfiles
      | |- context [match ?x with _ => _ end] =>
          lazymatch x with
          | context [match _ with _ => _ end] => fail
          | _ => destruct x eqn:?
          end
      end ].

Lemma messageOrDefault_nonempty (e : JsError) : messageOrDefault e <> EmptyString.
Proof. apply FailureFacts.default_message_nonempty. discriminate. Qed.

Section WithRuntime.
Variable path_dirname : string -> string.
Variable path_basename : string -> string.
Variable path_join : string -> string -> string.

Abbreviation outputPathOf := (Routes.outputPathOf path_dirname path_basename path_join).
Abbreviation compressAudioFile :=
  (Routes.compressAudioFile path_dirname path_basename path_join).
Abbreviation transcribeRoute :=
  (Routes.transcribeRoute path_dirname path_basename path_join).

(** X11.  The endpoint with compression answers 400 exactly to a request
    without file; to a request with a file it answers 200 with a transcript
    or 500 with a message that is not empty.  No other status is ever sent:
    the status of a failed call to the speech service is not forwarded. *)
Theorem transcribeRoute_status
    (execAsync : string -> gmap string N -> option JsError * gmap string N)
    (transcriptionsCreate :
       string -> gmap string N -> Completion Transcription.ApiTranscription)
    (reqFile : option UploadedFile) (w : World) :
  let r := snd (transcribeRoute execAsync transcriptionsCreate reqFile w) in
  match reqFile with
  | None => r = {| status := 400; body := MessageBody "No audio file provided" |}
  | Some _ =>
      (status r = 200%N /\ exists t, body r = TranscriptBody t)
      \/ (status r = 500%N /\ exists msg, body r = MessageBody msg /\ msg <> EmptyString)
  end.
Proof.
  destruct reqFile as [file|]; [|reflexivity].
  cbv zeta. endpoint_unfold. endpoint_step.
  destruct (files w !! path file) as [size|] eqn:Hfile; endpoint_step.
  2:{ rewrite Hfile. endpoint_step. right. split; [reflexivity|].
      eexists. split; [reflexivity|apply messageOrDefault_nonempty]. }
  destruct (maxWhisperFileSize <? size)%N; endpoint_step.
  1:{ rewrite RoutesFacts.compressAudioFile_unfold.
      destruct (execAsync _ (files w)) as [failure after].
      destruct (encoderProduced _ (failure, after)); cbn [snd];
        [destruct (after !! path file) as [inputSize|] eqn:Hin|];
        endpoint_cases;
        first [ left; split; [reflexivity|eexists; reflexivity]
              | right; split; [reflexivity|];
                eexists; split; [reflexivity|apply messageOrDefault_nonempty] ]. }
  endpoint_cases;
    first [ left; split; [reflexivity|eexists; reflexivity]
          | right; split; [reflexivity|];
            eexists; split; [reflexivity|apply messageOrDefault_nonempty] ].
Qed.

(** X13.  Whatever the encoder does, the only change the compressor itself
    makes to the files is the removal of its input: afterwards the files are
    as the encoder left them, or as the encoder left them without the
    input. *)
Theorem compressAudioFile_only_removes_input
    (execAsync : string -> gmap string N -> option JsError * gmap string N)
    (inputPath : string) (w : World) :
  let after :=
    snd (execAsync (encoderCommand inputPath (outputPathOf inputPath)) (files w)) in
  files (fst (compressAudioFile execAsync inputPath w)) = after
  \/ files (fst (compressAudioFile execAsync inputPath w)) = delete inputPath after.
Proof.
  cbv zeta. rewrite RoutesFacts.compressAudioFile_unfold.
  destruct (encoderProduced _ _); [|left; reflexivity].
  destruct (snd _ !! inputPath); [right|left]; reflexivity.
Qed.

(** X14.  A compression that works, end to end: for an upload above 25MB
    whose encoder run leaves a non-empty output of at most 25MB beside the
    original, the speech service is called once, on the output path, after
    the original is gone; the calls made are the encoder call and that
    speech call; at the end neither the upload nor the output is on disk;
    and a transcript is sent back with [wasCompressed] true (status 500 if
    the service fails). *)
Theorem compressed_upload_round
    (execAsync : string -> gmap string N -> option JsError * gmap string N)
    (transcriptionsCreate :
       string -> gmap string N -> Completion Transcription.ApiTranscription)
    (file : UploadedFile) (w : World) (size outputSize inputSize : N)
    (after : gmap string N) :
  let output := outputPathOf (path file) in
  let command := encoderCommand (path file) output in
  files w !! path file = Some size ->
  (maxWhisperFileSize < size)%N ->
  execAsync command (files w) = (None, after) ->
  after !! output = Some outputSize ->
  outputSize <> 0%N ->
  (outputSize <= maxWhisperFileSize)%N ->
  after !! path file = Some inputSize ->
  output <> path file ->
  exists w' r,
    transcribeRoute execAsync transcriptionsCreate (Some file) w = (w', r)
    /\ files w' = delete output (delete (path file) after)
    /\ calls w' = calls w ++ [CallEncoder command; CallSpeech output]
    /\ match transcriptionsCreate output (delete (path file) after) with
       | Normal tr =>
           r = {| status := 200;
                  body := TranscriptBody
                            {| t_text := Transcription.api_text tr;
                               t_duration :=
                                 Transcription.durationOrZero (Transcription.api_duration tr);
                               t_filename := originalname file;
                               t_wasCompressed := Some true |} |}
       | Throw _ => status r = 500%N
       end.
Proof.
  intros output command Hfile Hbig Hexec Hout Hsize Hsmall Hin Hneq.
  apply N.ltb_lt in Hbig. apply N.ltb_ge in Hsmall.
  assert (compressAudioFile execAsync (path file) w
          = ({| files := delete (path file) after;
                calls := calls w ++ [CallEncoder command] |}, Normal output)) as Hcomp.
  { rewrite RoutesFacts.compressAudioFile_unfold. fold output. fold command.
    rewrite Hexec. unfold encoderProduced. rewrite Hout. cbn [snd].
    destruct (N.eqb_spec outputSize 0); [congruence|]. cbn [negb].
    rewrite Hin. reflexivity. }
  assert (delete (path file) after !! output = Some outputSize) as Hout'.
  { rewrite lookup_delete_ne by congruence. exact Hout. }
  destruct (TranscriptionClaims.transcribeAudio_existing transcriptionsCreate output
              {| files := delete (path file) after;
                 calls := calls w ++ [CallEncoder command] |} outputSize Hout')
    as (res & Hrun & Hres).
  cbn [files calls] in Hrun, Hres.
  assert (String.eqb output (path file) = false) as Hneqb
    by (apply String.eqb_neq; exact Hneq).
  endpoint_unfold. endpoint_step. rewrite Hfile. endpoint_step. rewrite Hbig.
  endpoint_step. fold output. rewrite Hcomp. endpoint_step. rewrite Hout'.
  endpoint_step. rewrite Hsmall. endpoint_step. rewrite Hrun. endpoint_step.
  rewrite Hneqb. cbn [negb].
  destruct (transcriptionsCreate output (delete (path file) after)) as [tr|e].
  - subst res. endpoint_step. rewrite Hout'. endpoint_step.
    rewrite lookup_delete_ne by congruence. rewrite lookup_delete_eq. endpoint_step.
    do 2 eexists. split; [reflexivity|]. split; [reflexivity|].
    split; [|reflexivity]. rewrite <- app_assoc. reflexivity.
  - destruct Hres as [msg ->]. endpoint_step. rewrite Hout'. endpoint_step.
    rewrite lookup_delete_ne by congruence. rewrite lookup_delete_eq. endpoint_step.
    do 2 eexists. split; [reflexivity|]. split; [reflexivity|].
    split; [|reflexivity]. rewrite <- app_assoc. reflexivity.
Qed.

(** X15.  A failed encoder run on an upload above 25MB is reported as a
    file that is too large: when the run fails and leaves the original, of
    a size still above 25MB, the answer is status 500 with the message
    "File still too large after compression", giving the size of the
    original; the speech service is not called, and the upload is removed. *)
Theorem failed_encoder_reports_too_large
    (execAsync : string -> gmap string N -> option JsError * gmap string N)
    (transcriptionsCreate :
       string -> gmap string N -> Completion Transcription.ApiTranscription)
    (file : UploadedFile) (w : World) (size inputSize : N)
    (e : JsError) (after : gmap string N) :
  let command := encoderCommand (path file) (outputPathOf (path file)) in
  files w !! path file = Some size ->
  (maxWhisperFileSize < size)%N ->
  execAsync command (files w) = (Some e, after) ->
  after !! path file = Some inputSize ->
  (maxWhisperFileSize < inputSize)%N ->
  transcribeRoute execAsync transcriptionsCreate (Some file) w
  = ({| files := delete (path file) after;
        calls := calls w ++ [CallEncoder command] |},
     {| status := 500;
        body := MessageBody
                  ("File still too large after compression ("
                   ++ megabytesFixed2 inputSize
                   ++ "MB). Try a shorter audio clip.")%string |}).
Proof.
  intros command Hfile Hbig Hexec Hin Hstill.
  apply N.ltb_lt in Hbig, Hstill.
  assert (compressAudioFile execAsync (path file) w
          = ({| files := after; calls := calls w ++ [CallEncoder command] |},
             Normal (path file))) as Hcomp.
  { rewrite RoutesFacts.compressAudioFile_unfold. fold command.
    rewrite Hexec. reflexivity. }
  endpoint_unfold. endpoint_step. rewrite Hfile. endpoint_step. rewrite Hbig.
  endpoint_step. rewrite Hcomp. endpoint_step. rewrite Hin. endpoint_step.
  rewrite Hstill. endpoint_step. rewrite Hin. endpoint_step.
  rewrite String.eqb_refl. reflexivity.
Qed.

End WithRuntime.

(** X18.  The size printed in the "still too large" message is the size in
    megabytes rounded to the nearest hundredth; for a file above 25MB it is
    never below 25.00 (and it is 25.00 for a file one byte above the limit). *)
Theorem too_large_message_size (newSize : N) :
  (maxWhisperFileSize < newSize)%N ->
  exists hundredths,
    megabytesFixed2 newSize
    = (pretty (hundredths / 100)%N ++ "." ++ twoDigits (hundredths mod 100)%N)%string
    /\ (1048576 * hundredths <= 100 * newSize + 524288 < 1048576 * (hundredths + 1))%N
    /\ (2500 <= hundredths)%N.
Proof.
  intros Hbig. unfold maxWhisperFileSize in Hbig.
  exists ((newSize * 100 + 524288) / 1048576)%N.
  split; [reflexivity|].
  pose proof (N.div_mod (newSize * 100 + 524288) 1048576) as Hdiv.
  pose proof (N.mod_lt (newSize * 100 + 524288) 1048576) as Hmod.
  assert (1048576 <> 0)%N as Hne by discriminate.
  specialize (Hdiv Hne). specialize (Hmod Hne).
  set (q := ((newSize * 100 + 524288) / 1048576)%N) in *.
  set (m := ((newSize * 100 + 524288) mod 1048576)%N) in *.
  lia.
Qed.

Lemma too_large_message_size_witness :
  megabytesFixed2 26214401 = "25.00".
Proof.
  destruct (too_large_message_size 26214401) as (h & Hfmt & Hbounds & _).
  - reflexivity.
  - assert (h = 2500%N) as -> by lia. exact Hfmt.
Defined.

Lemma compressed_upload_round_witness :
  exists w',
    Routes.transcribeRoute PosixPath.dirname PosixPath.basename PosixPath.join
      (encoderWrites (megabytes 2)) speechReplies (Some upload)
      (worldWithUpload (megabytes 30))
    = (w', {| status := 200;
              body := TranscriptBody
                        {| t_text := "Hello there.";
                           t_duration := Transcription.zero;
                           t_filename := "meeting.wav";
                           t_wasCompressed := Some true |} |})
    /\ files w' = ∅.
Proof.
  destruct (compressed_upload_round PosixPath.dirname PosixPath.basename PosixPath.join
              (encoderWrites (megabytes 2)) speechReplies upload
              (worldWithUpload (megabytes 30)) (megabytes 30) (megabytes 2)
              (megabytes 30)
              (<[ compressedPath := megabytes 2 ]> {[ uploadPath := megabytes 30 ]}))
    as (w' & r & Hroute & Hfiles & _ & Hr).
  - reflexivity.
  - reflexivity.
  - reflexivity.
  - reflexivity.
  - discriminate.
  - vm_compute. discriminate.
  - reflexivity.
  - discriminate.
  - exists w'. cbn in Hr. rewrite Hroute, Hr. split; [reflexivity|].
    rewrite Hfiles. vm_compute. reflexivity.
Defined.

Lemma failed_encoder_reports_too_large_witness :
  Routes.transcribeRoute PosixPath.dirname PosixPath.basename PosixPath.join
    (encoderFailsLeaving 4096) speechReplies (Some upload)
    (worldWithUpload (megabytes 30))
  = ({| files := {[ compressedPath := 4096%N ]};
        calls := [CallEncoder
                    (encoderCommand uploadPath compressedPath)] |},
     {| status := 500;
        body := MessageBody
                  "File still too large after compression (30.00MB). Try a shorter audio clip." |}).
Proof.
  refine (eq_trans
            (failed_encoder_reports_too_large PosixPath.dirname PosixPath.basename
               PosixPath.join (encoderFailsLeaving 4096) speechReplies upload
               (worldWithUpload (megabytes 30)) (megabytes 30) (megabytes 30)
               (newError "Command failed: ffmpeg")
               (<[ compressedPath := 4096%N ]> {[ uploadPath := megabytes 30 ]})
               _ _ _ _ _) _).
  - reflexivity.
  - reflexivity.
  - reflexivity.
  - reflexivity.
  - reflexivity.
  - vm_compute. reflexivity.
Defined.

(** X12.  The endpoint without compression does the same: 400 without
    file, otherwise 200 with a transcript or 500 with a message that is not
    empty. *)
Theorem transcribeRouteSimple_status
    (transcriptionsCreate :
       string -> gmap string N -> Completion Transcription.ApiTranscription)
    (reqFile : option UploadedFile) (w : World) :
  let r := snd (Routes.transcribeRouteSimple transcriptionsCreate reqFile w) in
  match reqFile with
  | None => r = {| status := 400; body := MessageBody "No audio file provided" |}
  | Some _ =>
      (status r = 200%N /\ exists t, body r = TranscriptBody t)
      \/ (status r = 500%N /\ exists msg, body r = MessageBody msg /\ msg <> EmptyString)
  end.
Proof.
  destruct reqFile as [file|]; [|reflexivity].
  cbv zeta. endpoint_unfold. endpoint_cases;
    first [ left; split; [reflexivity|eexists; reflexivity]
          | right; split; [reflexivity|];
            eexists; split; [reflexivity|apply messageOrDefault_nonempty] ].
Qed.

End EndpointFacts.

(** ** The client-side file helpers *)
Module ClientFacts.
Import FileUtils.

(** X16.  The client accepts a file exactly when the upload filter of the
    server accepts its type and its size is at most the 25MB above which
    the server compresses: a file chosen through the client is never
    compressed, and never refused by the filter. *)
Theorem validateAudioFile_matches_server (file : File) :
  validateAudioFile file = None
  <-> Upload.fileFilter (type file) = Normal true
      /\ (size file <= Routes.maxWhisperFileSize)%N.
Proof.
  unfold validateAudioFile, Upload.fileFilter, Upload.allowedMimes,
    Routes.maxWhisperFileSize.
  destruct (Upload.includesMime _ (type file)); cbn [negb].
  - destruct (N.ltb_spec (25 * 1024 * 1024) (size file)); split.
    + discriminate.
    + intros [_ Hle]. lia.
    + intros _. split; [reflexivity|lia].
    + reflexivity.
  - split; [discriminate|]. intros [H _]. discriminate.
Qed.

Lemma tenths_bounds (bytes unit : N) :
  unit <> 0%N ->
  let tenths := ((bytes * 20 + unit) / (2 * unit))%N in
  (2 * unit * tenths <= 20 * bytes + unit < 2 * unit * (tenths + 1))%N.
Proof.
  intros Hunit tenths.
  pose proof (N.div_mod (bytes * 20 + unit) (2 * unit)) as Hdiv.
  pose proof (N.mod_lt (bytes * 20 + unit) (2 * unit)) as Hmod.
  subst tenths.
  assert (2 * unit <> 0)%N as Hne by lia.
  specialize (Hdiv Hne). specialize (Hmod Hne).
  set (q := ((bytes * 20 + unit) / (2 * unit))%N) in *.
  set (m := ((bytes * 20 + unit) mod (2 * unit))%N) in *.
  nia.
Qed.

(** X17.  For a size that is not zero, [formatFileSize] picks the unit so
    that the size lies between one unit and 1024 units (bytes below, and
    gigabytes above, being the ends of the scale), and the number it prints
    is within 0.05 of the size in that unit; the number printed can reach
    1024.0 but not exceed it, below the last unit. *)
Theorem formatFileSize_unit_and_accuracy (bytes : N) :
  bytes <> 0%N ->
  let k := unitIndexOf bytes in
  let unit := (1024 ^ N.of_nat k)%N in
  let tenths := tenthsOf bytes k in
  formatFileSize bytes
  = (pretty (tenths / 10)%N ++ "." ++ pretty (tenths mod 10)%N ++ " "
     ++ nth k units EmptyString)%string
  /\ k <= 3
  /\ (k = 0 \/ (unit <= bytes)%N)
  /\ (k = 3 \/ (bytes < 1024 * unit)%N)
  /\ (2 * unit * tenths <= 20 * bytes + unit < 2 * unit * (tenths + 1))%N
  /\ (k < 3 -> (tenths <= 10240)%N).
Proof.
  intros Hne k unit tenths.
  split.
  { unfold formatFileSize. destruct (N.eqb_spec bytes 0); [congruence|reflexivity]. }
  assert (forall i,
            (2 * 1024 ^ N.of_nat i * tenthsOf bytes i
             <= 20 * bytes + 1024 ^ N.of_nat i
             < 2 * 1024 ^ N.of_nat i * (tenthsOf bytes i + 1))%N) as Hacc.
  { intros i. unfold tenthsOf. apply tenths_bounds. apply N.pow_nonzero. discriminate. }
  subst tenths unit k. unfold unitIndexOf, units. cbn [List.length Nat.sub scaleLoop].
  change (1024 ^ N.of_nat (0 + 1))%N with 1024%N.
  change (1024 ^ N.of_nat (1 + 1))%N with 1048576%N.
  change (1024 ^ N.of_nat (2 + 1))%N with 1073741824%N.
  destruct (N.leb_spec 1024 bytes) as [H1|H1].
  - destruct (N.leb_spec 1048576 bytes) as [H2|H2].
    + destruct (N.leb_spec 1073741824 bytes) as [H3|H3].
      * specialize (Hacc 3).
        change (1024 ^ N.of_nat 3)%N with 1073741824%N in *.
        repeat split; lia.
      * specialize (Hacc 2).
        change (1024 ^ N.of_nat 2)%N with 1048576%N in *.
        repeat split; lia.
    + specialize (Hacc 1).
      change (1024 ^ N.of_nat 1)%N with 1024%N in *.
      repeat split; lia.
  - specialize (Hacc 0).
    change (1024 ^ N.of_nat 0)%N with 1%N in *.
    repeat split; lia.
Qed.

Lemma formatFileSize_unit_and_accuracy_witness :
  formatFileSize 1048575 = "1024.0 KB".
Proof.
  refine (proj1 (formatFileSize_unit_and_accuracy 1048575 _)).
  discriminate.
Defined.

End ClientFacts.
